(** * meraki_bot_1.py: a shallow embedding of the Spark/Meraki bot

  The bot is one AWS Lambda entry point ([lambda_handler]) that reads a
  webhook event, fetches the text of the chat message, picks a command
  handler by comparing the text with literal command strings, calls the
  Meraki dashboard API (or Tropo), and posts a text or a table back to
  the Spark room.

  The embedding follows the Python source function by function.  Remote
  calls are answers of a [World] (one field per endpoint) and every call
  is recorded, in order, in a trace of [event]s.  Python exceptions are
  the [Raise] outcome of a small trace-and-error monad.  Strings are
  text in UTF-8 ([string] of the standard library, byte by byte).  The
  one operation of the source that depends on the Unicode tables of the
  interpreter, [str.lower], is fixed on ASCII text and an answer of the
  [World] on any other text. *)

From Stdlib Require Import ZArith String Ascii List Bool Lia.
From Stdlib Require Import Sorting.Sorted Sorting.Permutation.
From Stdlib Require Import Numbers.DecimalString.
From Stdlib Require OrderedTypeEx.
From stdpp Require Import base option list sorting gmap strings.

Import ListNotations.
#[local] Set Warnings "-register-all".
#[local] Set Default Proof Using "Type".
Local Open Scope string_scope.
Local Open Scope list_scope.

(** ** Python string primitives used by the bot *)

Module PyStr.

(** [s[:n]] *)
Definition slice_to (n : nat) (s : string) : string := String.substring 0 n s.

(** [s[n:]] *)
Fixpoint slice_from (n : nat) (s : string) : string :=
  match n, s with
  | O, _ => s
  | S _, EmptyString => EmptyString
  | S n', String _ s' => slice_from n' s'
  end.

(** [s.startswith(p)] *)
Definition startswith (p s : string) : bool := String.prefix p s.

(** The first occurrence of [sep] in [s], as the text before it and the
    text after it. *)
Fixpoint partition (sep s : string) : option (string * string) :=
  if String.prefix sep s then Some (EmptyString, slice_from (String.length sep) s)
  else match s with
       | EmptyString => None
       | String c s' =>
           match partition sep s' with
           | Some (before, after) => Some (String c before, after)
           | None => None
           end
       end.

(** [s.split(sep, 1)] for a non-empty separator: at most one cut, at the
    first occurrence. *)
Definition split1 (sep s : string) : list string :=
  match partition sep s with
  | Some (before, after) => [before; after]
  | None => [s]
  end.

Definition is_upper (c : ascii) : bool :=
  let n := nat_of_ascii c in (65 <=? n)%nat && (n <=? 90)%nat.

Definition lower_char (c : ascii) : ascii :=
  if is_upper c then ascii_of_nat (nat_of_ascii c + 32) else c.

Fixpoint map_chars (f : ascii -> ascii) (s : string) : string :=
  match s with
  | EmptyString => EmptyString
  | String c s' => String (f c) (map_chars f s')
  end.

Definition is_ascii_char (c : ascii) : bool := (nat_of_ascii c <? 128)%nat.

Fixpoint is_ascii (s : string) : bool :=
  match s with
  | EmptyString => true
  | String c s' => is_ascii_char c && is_ascii s'
  end.

(** [s.lower()].  Text is held in UTF-8, as the string literals of this
    file are.  On ASCII text the result is fixed by the language: the
    letters A to Z become a to z and nothing else changes.  On any other
    text the result comes from the case tables of the Unicode database of
    the interpreter, which are no part of the source: it is [unicode_lower
    s], an answer of the world the program runs in. *)
Definition lower (unicode_lower : string -> string) (s : string) : string :=
  if is_ascii s then map_chars lower_char s else unicode_lower s.

(** [s.replace(old, new)] where both arguments are one character long,
    as in both calls of the source. *)
Definition replace_char (old new : ascii) (s : string) : string :=
  map_chars (fun c => if Ascii.eqb c old then new else c) s.

(** Iterating over a string yields its characters as one-character
    strings. *)
Fixpoint chars (s : string) : list string :=
  match s with
  | EmptyString => []
  | String c s' => String c EmptyString :: chars s'
  end.

(** [str(n)] for a non-negative integer. *)
Definition of_nat (n : nat) : string := NilEmpty.string_of_uint (Nat.to_uint n).

(** [sub in s]: literal containment of [sub] as a contiguous substring. *)
Definition contains (sub s : string) : Prop :=
  exists pre post : string, s = pre +:+ sub +:+ post.

Fixpoint containsb (sub s : string) : bool :=
  String.prefix sub s ||
  match s with
  | EmptyString => false
  | String _ s' => containsb sub s'
  end.

End PyStr.

(** ** The fragment of [re] the bot uses

  Both patterns of the source (['10.4.17'] and ['guest_wireless']) are
  made of ordinary characters and dots.  In Python's [re] a dot matches
  any character except a newline. *)

Module Re.

Inductive atom : Type :=
| Lit (c : ascii)
| AnyChar.

Definition pattern := list atom.

Definition newline : ascii := ascii_of_nat 10.

(** [re.compile(p)] for a pattern of ordinary characters and dots. *)
Fixpoint compile (p : string) : pattern :=
  match p with
  | EmptyString => []
  | String c p' => (if Ascii.eqb c "." then AnyChar else Lit c) :: compile p'
  end.

Definition atom_matches (a : atom) (c : ascii) : bool :=
  match a with
  | Lit d => Ascii.eqb c d
  | AnyChar => negb (Ascii.eqb c newline)
  end.

(** The pattern has no dot: it is matched literally. *)
Fixpoint literal (p : string) : bool :=
  match p with
  | EmptyString => true
  | String c p' => negb (Ascii.eqb c ".") && literal p'
  end.

(** The pattern has no newline. *)
Fixpoint no_newline (p : string) : bool :=
  match p with
  | EmptyString => true
  | String c p' => negb (Ascii.eqb c newline) && no_newline p'
  end.

(** The pattern matches a prefix of [s]. *)
Fixpoint match_here (p : pattern) (s : string) : bool :=
  match p, s with
  | [], _ => true
  | _ :: _, EmptyString => false
  | a :: p', String c s' => atom_matches a c && match_here p' s'
  end.

(** [p.search(s) is not None]: the pattern matches at some position. *)
Fixpoint search (p : pattern) (s : string) : bool :=
  match_here p s ||
  match s with
  | EmptyString => false
  | String _ s' => search p s'
  end.

End Re.

(** ** Values exchanged with the outside world *)

(** A decoded JSON document, as [json.loads] and the Lambda runtime deliver
    it.  The fields of an object are looked up by key; a [dict] has each key
    once. *)
Inductive json : Type :=
| JNull
| JBool (b : bool)
| JNum (n : Z)
| JStr (s : string)
| JArr (items : list json)
| JObj (fields : list (string * json)).

(** The Python exceptions the embedded code can raise.  [RequestError]
    stands for whatever a remote call raises (connection failure, a body
    that does not decode). *)
Inductive exn : Type :=
| KeyError (key : string)
| TypeError
| IndexError
| ValueError
| RequestError.

Inductive outcome (A : Type) : Type :=
| Ok (a : A)
| Raise (e : exn).

Arguments Ok {A} a.
Arguments Raise {A} e.

(** One row of [merakiapi.getorginventory]. *)
Record InventoryRow : Type := {
  inv_model : string;
  inv_serial : string;
  inv_mac : string
}.

(** One row of [merakiapi.getnetworklist]. *)
Record NetworkRecord : Type := {
  nw_id : string;
  nw_name : string;
  nw_tags : string
}.

(** One row of [merakiapi.getssids]. *)
Record SSIDRecord : Type := {
  ssid_number : Z;
  ssid_name : string;
  ssid_enabled : bool
}.

(** One device of [merakiapi.getnetworkdevices].  The dashboard delivers
    the tags of a device as one string in which the tags are separated by
    spaces, for instance [" guest_wireless recently-added "]; [str] of a
    string is that string. *)
Record DeviceRecord : Type := {
  model : string;
  serial : string;
  tags : string
}.

(** What iterating over the answer of [getnetworkdevices] yields: a device,
    or a string (the keys of the dictionary the dashboard sends in place of
    the device list when it reports errors). *)
Inductive device_row : Type :=
| RowKey (s : string)
| RowDevice (d : DeviceRecord).

(** One row of [merakiapi.getclients]; [sent] and [recv] are
    [row['usage']['sent']] and [row['usage']['recv']], integers. *)
Record ClientRecord : Type := {
  description : string;
  ip : string;
  mac : string;
  sent : Z;
  recv : Z
}.

(** ** PrettyTable *)

Inductive cell : Type :=
| CStr (s : string)
| CInt (n : Z)
| CBool (b : bool).

Definition table_row : Type := list cell.

Record PrettyTable : Type := {
  field_names : list string;
  rows : list table_row;
  reversesort : bool
}.

(** [PrettyTable(field_names)] *)
Definition new_table (names : list string) : PrettyTable :=
  {| field_names := names; rows := []; reversesort := false |}.

(** [table.add_row(row)] *)
Definition add_row (row : table_row) (t : PrettyTable) : PrettyTable :=
  {| field_names := field_names t; rows := rows t ++ [row]; reversesort := reversesort t |}.

(** [table.reversesort = b] *)
Definition set_reversesort (b : bool) (t : PrettyTable) : PrettyTable :=
  {| field_names := field_names t; rows := rows t; reversesort := b |}.

(** The text of a message: a plain string, or the rendering of a table,
    kept as its header and its rows in printing order. *)
Inductive text : Type :=
| Plain (s : string)
| Rendered (header : list string) (body : list table_row).

(** Python's order on the values of a cell.  Numbers (a [bool] counts as 0
    or 1) compare by value and strings by their characters; a number
    against a string does not occur in a column of this program (Python 2
    puts the number first, which is what is written here). *)
Definition cell_number (c : cell) : option Z :=
  match c with
  | CInt n => Some n
  | CBool b => Some (if b then 1 else 0)%Z
  | CStr _ => None
  end.

Definition cell_compare (a b : cell) : comparison :=
  match a, b with
  | CStr x, CStr y => String.compare x y
  | CStr _, _ => Gt
  | _, CStr _ => Lt
  | _, _ =>
      match cell_number a, cell_number b with
      | Some x, Some y => Z.compare x y
      | _, _ => Eq
      end
  end.

(** Python's order on lists: the first differing position decides, and a
    proper prefix comes first. *)
Fixpoint row_compare (r1 r2 : table_row) : comparison :=
  match r1, r2 with
  | [], [] => Eq
  | [], _ :: _ => Lt
  | _ :: _, [] => Gt
  | a :: r1', b :: r2' =>
      match cell_compare a b with
      | Eq => row_compare r1' r2'
      | c => c
      end
  end.

Definition row_ltb (r1 r2 : table_row) : bool :=
  match row_compare r1 r2 with Lt => true | _ => false end.

(** [list.sort(key = lambda x: x)] is a stable sort by [<]; insertion sort
    is one. *)
Fixpoint insert_row (x : table_row) (l : list table_row) : list table_row :=
  match l with
  | [] => [x]
  | y :: l' => if row_ltb y x then y :: insert_row x l' else x :: y :: l'
  end.

Fixpoint sort_rows (l : list table_row) : list table_row :=
  match l with
  | [] => []
  | x :: l' => insert_row x (sort_rows l')
  end.

(** [list.sort(reverse = r)]: for [reverse = True] CPython reverses the
    list, sorts it, and reverses the result. *)
Definition py_sort (reverse : bool) (l : list table_row) : list table_row :=
  if reverse then rev (sort_rows (rev l)) else sort_rows l.

(** [names.index(name)] *)
Fixpoint index_of (name : string) (names : list string) : option nat :=
  match names with
  | [] => None
  | n :: names' =>
      if String.eqb n name then Some O
      else match index_of name names' with
           | Some i => Some (S i)
           | None => None
           end
  end.

(** [str(table)]: the rows in insertion order. *)
Definition table_str (t : PrettyTable) : text :=
  Rendered (field_names t) (rows t).

(** [table.get_string(sortby = name)].  PrettyTable puts the value of the
    sort column in front of each row, sorts these decorated rows with
    [list.sort(reverse = reversesort)], and removes the decoration. *)
Definition get_string_sortby (name : string) (t : PrettyTable) : outcome text :=
  match index_of name (field_names t) with
  | None => Raise ValueError
  | Some sortindex =>
      let decorated := map (fun row => nth sortindex row (CStr "") :: row) (rows t) in
      let sorted := py_sort (reversesort t) decorated in
      Ok (Rendered (field_names t) (map (fun row => tl row) sorted))
  end.

(** ** Remote calls, traces and the monad of the handlers *)

(** The module [meraki_info] (credentials and identifiers) is not part of
    the source; its values are parameters. *)
Record Config : Type := {
  my_api_key : string;
  my_org_id : string;
  my_net_id : string;
  tropo_voice_token : string
}.

(** Every remote call, with the arguments that reach the network.  A Spark
    message is addressed by [str(msg_id)] and a post by [str(room_id)]; the
    event keeps the value itself. *)
Inductive event : Type :=
| GetOrgInventory (api_key org_id : string)
| GetNetworkList (api_key org_id : string)
| GetSsids (api_key net_id : string)
| GetNetworkDevices (api_key net_id : string)
| GetClients (api_key sn : string) (timestamp : Z)
| SparkGet (msg_id : json)
| SparkPost (room_id : json) (body : text)
| TropoPost (token number : string).

Definition trace : Type := list event.

(** The answers of the remote services during one invocation; a service
    gives the same answer to the same request throughout.  [spark_get] is
    the decoded body of the message ([json.loads(get_text.text)]);
    [spark_post] and [tropo_post] answer with a status code.
    [unicode_lower] is [str.lower] of the interpreter on text that is not
    ASCII (see [PyStr.lower]). *)
Record World : Type := {
  getorginventory : string -> string -> outcome (list InventoryRow);
  getnetworklist : string -> string -> outcome (list NetworkRecord);
  getssids : string -> string -> outcome (list SSIDRecord);
  getnetworkdevices : string -> string -> outcome (list device_row);
  getclients : string -> string -> Z -> outcome (list ClientRecord);
  spark_get : json -> outcome json;
  spark_post : json -> text -> outcome Z;
  tropo_post : string -> string -> outcome Z;
  unicode_lower : string -> string
}.

(** A computation extends the trace of calls and returns or raises. *)
Definition M (A : Type) : Type := trace -> outcome A * trace.

Definition ret {A : Type} (a : A) : M A := fun tr => (Ok a, tr).

Definition raise {A : Type} (e : exn) : M A := fun tr => (Raise e, tr).

Definition bind {A B : Type} (m : M A) (k : A -> M B) : M B :=
  fun tr =>
    match m tr with
    | (Ok a, tr') => k a tr'
    | (Raise e, tr') => (Raise e, tr')
    end.

Definition lift {A : Type} (r : outcome A) : M A := fun tr => (r, tr).

(** A remote call: the call is made, then its answer is returned or its
    exception raised. *)
Definition call {A : Type} (e : event) (answer : outcome A) : M A :=
  fun tr => (answer, tr ++ [e]).

Declare Scope py_scope.
Delimit Scope py_scope with py.
Notation "x <- m ;; k" := (bind m (fun x => k))
  (at level 100, m at next level, right associativity) : py_scope.
Local Open Scope py_scope.

(** [for x in l: state = body(x, state)] *)
Fixpoint for_each {A S : Type} (l : list A) (body : A -> S -> M S) (s : S) : M S :=
  match l with
  | [] => ret s
  | x :: l' => s' <- body x s ;; for_each l' body s'
  end.

(** [v[key]] for a string key. *)
Fixpoint assoc (key : string) (fields : list (string * json)) : option json :=
  match fields with
  | [] => None
  | (k, v) :: fields' => if String.eqb k key then Some v else assoc key fields'
  end.

Definition subscript (v : json) (key : string) : outcome json :=
  match v with
  | JObj fields =>
      match assoc key fields with
      | Some x => Ok x
      | None => Raise (KeyError key)
      end
  | _ => Raise TypeError
  end.

(** [str(v)] where the dispatcher needs it.  A string is itself.  The
    rendering of any other JSON value begins with [N], [T], [F], a digit, a
    sign, a bracket or a brace, so no command prefix matches it; it is not
    spelled out. *)
Definition py_str (v : json) : option string :=
  match v with
  | JStr s => Some s
  | _ => None
  end.

(** [v == lit] for a string literal. *)
Definition eq_str (v : json) (lit : string) : bool :=
  match v with
  | JStr s => String.eqb s lit
  | _ => false
  end.

(** A value that may be [None], for the test [x is not None]. *)
Inductive pyval : Type :=
| PyNone
| PyString (s : string).

Definition is_not_None (v : pyval) : bool :=
  match v with
  | PyNone => false
  | PyString _ => true
  end.

(** What the two access-point functions return: the list of serials, or
    the string they return on an ['errors'] row. *)
Inductive ap_list : Type :=
| Serials (l : list string)
| Sentinel (s : string).

(** [for sn in sn_list]: a list yields its elements and a string its
    characters. *)
Definition iterate (v : ap_list) : list string :=
  match v with
  | Serials l => l
  | Sentinel s => PyStr.chars s
  end.

(** The loop of [get_guest_ap_list] over the rows of the device list.
    [row['tags']] on a row that is a string other than ['errors'] raises
    [TypeError]. *)
Fixpoint guest_ap_rows (result : list device_row) (serial_list : list string) : outcome ap_list :=
  match result with
  | [] => Ok (Serials serial_list)
  | RowKey s :: rest =>
      if String.eqb s "errors" then Ok (Sentinel "errors") else Raise TypeError
  | RowDevice row :: rest =>
      let guest_regex := Re.compile "guest_wireless" in
      let m := Re.search guest_regex (tags row) in
      if String.eqb (PyStr.slice_to 2 (model row)) "MR" && m
      then guest_ap_rows rest (serial_list ++ [serial row])
      else guest_ap_rows rest serial_list
  end.

(** The loop of [get_ap_list]. *)
Fixpoint ap_rows (result : list device_row) (serial_list : list string) : outcome ap_list :=
  match result with
  | [] => Ok (Serials serial_list)
  | RowKey s :: rest =>
      if String.eqb s "errors" then Ok (Sentinel "errors") else Raise TypeError
  | RowDevice row :: rest =>
      if String.eqb (PyStr.slice_to 2 (model row)) "MR"
      then ap_rows rest (serial_list ++ [serial row])
      else ap_rows rest serial_list
  end.

(** The inner loop of [spark_get_guest_clients_cmd] over the clients of one
    device. *)
Definition guest_client_step (st : nat * PrettyTable) (row : ClientRecord) : nat * PrettyTable :=
  let (client_count, table) := st in
  let subnet_regex := Re.compile "10.4.17" in
  if Re.search subnet_regex (ip row)
  then (S client_count,
        add_row [CStr (description row); CStr (ip row); CStr (mac row)] table)
  else (client_count, table).

Definition guest_client_rows (result : list ClientRecord) (st : nat * PrettyTable) : nat * PrettyTable :=
  fold_left guest_client_step result st.

(** The inner loop of [spark_get_mr_clients_cmd]. *)
Definition mr_client_step (st : nat * PrettyTable) (row : ClientRecord) : nat * PrettyTable :=
  let (client_count, table) := st in
  (S client_count,
   add_row [CStr (description row); CStr (ip row); CStr (mac row)] table).

Definition mr_client_rows (result : list ClientRecord) (st : nat * PrettyTable) : nat * PrettyTable :=
  fold_left mr_client_step result st.

(** [row['description'].lower().replace(' ', '_').replace('.', '_')] *)
Definition normalize (W : World) (d : string) : string :=
  PyStr.replace_char "." "_"
    (PyStr.replace_char " " "_" (PyStr.lower (unicode_lower W) d)).

(** The body of the inner loop of [spark_get_top_talkers_cmd].  The
    dictionary [client_traffic] is a finite map; the two tests of the
    source ([not in], [in]) are the two cases of the lookup. *)
Definition add_usage (W : World) (client_traffic : gmap string Z) (row : ClientRecord) :
    gmap string Z :=
  let traf_sum := (sent row + recv row)%Z in
  let d := normalize W (description row) in
  match client_traffic !! d with
  | None => <[d := traf_sum]> client_traffic
  | Some total => <[d := (total + traf_sum)%Z]> client_traffic
  end.

Definition aggregate_rows (W : World) (result : list ClientRecord)
    (client_traffic : gmap string Z) : gmap string Z :=
  fold_left (add_usage W) result client_traffic.

(** The second loop of [spark_get_top_talkers_cmd]: one row per key, and
    [reversesort] set in the body of the loop.  The order in which the keys
    are visited is the dictionary's; the table is sorted before it is
    printed, and the printed table is the same for every order
    ([usage_table_any_order] below). *)
Definition usage_step (table : PrettyTable) (entry : string * Z) : PrettyTable :=
  let (client_name, client_usage) := entry in
  set_reversesort true (add_row [CStr client_name; CInt client_usage] table).

Definition usage_rows (client_traffic : gmap string Z) (table : PrettyTable) : PrettyTable :=
  fold_left usage_step (map_to_list client_traffic) table.

Section Bot.

Variable cfg : Config.
Variable W : World.

(** [requests.post(spark_url, data = json.dumps({'roomId': str(room_id),
    'text': body}), headers = spark_header)] *)
Definition post_to_spark (room_id : json) (body : text) : M Z :=
  call (SparkPost room_id body) (spark_post W room_id body).

Definition spark_get_inventory_cmd (api_key org_id : string) (room_id : json) : M unit :=
  dashboard_response <- call (GetOrgInventory api_key org_id) (getorginventory W api_key org_id) ;;
  let table := new_table ["Model"; "Serial Number"; "Mac Address"] in
  let table :=
    fold_left (fun table row =>
                 add_row [CStr (inv_model row); CStr (inv_serial row); CStr (inv_mac row)] table)
              dashboard_response table in
  _ <- post_to_spark room_id (table_str table) ;;
  ret tt.

Definition spark_get_networks_cmd (api_key org_id : string) (room_id : json) : M unit :=
  dashboard_response <- call (GetNetworkList api_key org_id) (getnetworklist W api_key org_id) ;;
  let table := new_table ["Network ID"; "Network Name"; "Tags"] in
  let table :=
    fold_left (fun table row =>
                 add_row [CStr (nw_id row); CStr (nw_name row); CStr (nw_tags row)] table)
              dashboard_response table in
  rendered <- lift (get_string_sortby "Network Name" table) ;;
  _ <- post_to_spark room_id rendered ;;
  ret tt.

Definition spark_get_ssids_cmd (api_key net_id : string) (room_id : json) : M unit :=
  dashboard_response <- call (GetSsids api_key net_id) (getssids W api_key net_id) ;;
  let table := new_table ["SSID #"; "SSID Name"; "Enabled?"] in
  let table :=
    fold_left (fun table row =>
                 add_row [CInt (ssid_number row); CStr (ssid_name row); CBool (ssid_enabled row)] table)
              dashboard_response table in
  _ <- post_to_spark room_id (table_str table) ;;
  ret tt.

Definition get_guest_ap_list (api_key net_id : string) : M ap_list :=
  result <- call (GetNetworkDevices api_key net_id) (getnetworkdevices W api_key net_id) ;;
  lift (guest_ap_rows result []).

Definition get_ap_list (api_key net_id : string) : M ap_list :=
  result <- call (GetNetworkDevices api_key net_id) (getnetworkdevices W api_key net_id) ;;
  lift (ap_rows result []).

Definition spark_get_guest_clients_cmd (api_key net_id : string) (room_id : json) : M unit :=
  sn_list <- get_guest_ap_list api_key net_id ;;
  let client_count := O in
  let table := new_table ["Description"; "IP"; "MAC"] in
  st <- for_each (iterate sn_list)
          (fun sn st =>
             result <- call (GetClients (my_api_key cfg) sn 900)
                            (getclients W (my_api_key cfg) sn 900) ;;
             ret (guest_client_rows result st))
          (client_count, table) ;;
  let (client_count, table) := st in
  let msg := "There are " +:+ PyStr.of_nat client_count
             +:+ " users on the guest wireless network" in
  _ <- post_to_spark room_id (Plain msg) ;;
  _ <- post_to_spark room_id (table_str table) ;;
  ret tt.

Definition spark_get_mr_clients_cmd (api_key net_id : string) (room_id : json) : M unit :=
  sn_list <- get_ap_list api_key net_id ;;
  let client_count := O in
  let mr_count := O in
  let table := new_table ["Description"; "IP"; "MAC"] in
  st <- for_each (iterate sn_list)
          (fun sn (st : nat * (nat * PrettyTable)) =>
             let (mr_count, inner) := st in
             let mr_count := S mr_count in
             result <- call (GetClients (my_api_key cfg) sn 900)
                            (getclients W (my_api_key cfg) sn 900) ;;
             ret (mr_count, mr_client_rows result inner))
          (mr_count, (client_count, table)) ;;
  let '(mr_count, (client_count, table)) := st in
  let msg := "There are " +:+ PyStr.of_nat client_count
             +:+ " users on the wireless network across "
             +:+ PyStr.of_nat mr_count +:+ " MR devices" in
  _ <- post_to_spark room_id (Plain msg) ;;
  _ <- post_to_spark room_id (table_str table) ;;
  ret tt.

Definition spark_get_top_talkers_cmd (api_key net_id : string) (room_id : json) : M unit :=
  let client_traffic : gmap string Z := ∅ in
  sn_list <- get_ap_list api_key net_id ;;
  let table := new_table ["Client"; "Usage - kbytes past hour"] in
  client_traffic <- for_each (iterate sn_list)
          (fun sn client_traffic =>
             result <- call (GetClients api_key sn 3600) (getclients W api_key sn 3600) ;;
             ret (aggregate_rows W result client_traffic))
          client_traffic ;;
  let table := usage_rows client_traffic table in
  rendered <- lift (get_string_sortby "Usage - kbytes past hour" table) ;;
  _ <- post_to_spark room_id rendered ;;
  ret tt.

Definition spark_err_msg (room_id : json) : M unit :=
  _ <- post_to_spark room_id (Plain "Please enter a valid command") ;;
  ret tt.

Definition meraki_rick_roll (number : string) (room_id : json) : M unit :=
  status_code <- call (TropoPost (tropo_voice_token cfg) number)
                      (tropo_post W (tropo_voice_token cfg) number) ;;
  if (status_code =? 200)%Z
  then _ <- post_to_spark room_id (Plain "Success") ;; ret tt
  else _ <- post_to_spark room_id (Plain "Something went wrong") ;; ret tt.

(** The chain of tests of [lambda_handler] on [t['text']]. *)
Definition dispatch (t_text : json) (room_id : json) : M unit :=
  if eq_str t_text "Meraki get ?" then
    let response := "get [mr clients|guest clients|top talkers|inventory|networks|ssids]" in
    _ <- post_to_spark room_id (Plain response) ;;
    ret tt
  else if eq_str t_text "Meraki get inventory" then
    spark_get_inventory_cmd (my_api_key cfg) (my_org_id cfg) room_id
  else if eq_str t_text "Meraki get networks" then
    spark_get_networks_cmd (my_api_key cfg) (my_org_id cfg) room_id
  else if eq_str t_text "Meraki get ssids" then
    spark_get_ssids_cmd (my_api_key cfg) (my_net_id cfg) room_id
  else if eq_str t_text "Meraki get mr clients" then
    spark_get_mr_clients_cmd (my_api_key cfg) (my_net_id cfg) room_id
  else if eq_str t_text "Meraki get guest clients" then
    spark_get_guest_clients_cmd (my_api_key cfg) (my_net_id cfg) room_id
  else if eq_str t_text "Meraki get top talkers" then
    spark_get_top_talkers_cmd (my_api_key cfg) (my_net_id cfg) room_id
  else
    match py_str t_text with
    | Some s =>
        if PyStr.startswith "Meraki rick roll " s then
          let cmd_split := PyStr.split1 "Meraki rick roll " s in
          match nth_error cmd_split 1 with
          | None => raise IndexError
          | Some num_to_dial =>
              if is_not_None (PyString num_to_dial)
              then meraki_rick_roll num_to_dial room_id
              else spark_err_msg room_id
          end
        else spark_err_msg room_id
    | None => spark_err_msg room_id
    end.

(** The entry point.  What the source prints is not part of the model. *)
Definition lambda_handler (event : json) : M string :=
  data <- lift (subscript event "data") ;;
  msg_id <- lift (subscript data "id") ;;
  data <- lift (subscript event "data") ;;
  room_id <- lift (subscript data "roomId") ;;
  t <- call (SparkGet msg_id) (spark_get W msg_id) ;;
  t_text <- lift (subscript t "text") ;;
  _ <- dispatch t_text room_id ;;
  ret "Finished".

End Bot.

(** ** Notions the statements are phrased with *)

Definition is_digit (c : ascii) : bool :=
  let n := nat_of_ascii c in (48 <=? n)%nat && (n <=? 57)%nat.

(** Dotted decimal, read loosely: only digits and dots, and never more than
    three digits in a row ([run] digits have just been read).  Every IPv4
    address in dotted-decimal notation has this shape. *)
Fixpoint octets_ok (run : nat) (s : string) : bool :=
  match s with
  | EmptyString => true
  | String c s' =>
      if is_digit c then (run <? 3)%nat && octets_ok (S run) s'
      else if Ascii.eqb c "." then octets_ok 0 s'
      else false
  end.

Definition dotted_decimal (s : string) : bool := octets_ok 0 s.

(** [s.split(' ')] *)
Fixpoint split_spaces (s : string) : list string :=
  match s with
  | EmptyString => [EmptyString]
  | String c s' =>
      if Ascii.eqb c " " then EmptyString :: split_spaces s'
      else match split_spaces s' with
           | w :: ws => String c w :: ws
           | [] => [String c EmptyString]
           end
  end.

(** The tags of a device as a set: the non-empty words of its tag string. *)
Definition tag_set (device_tags : string) : list string :=
  List.filter (fun w => negb (String.eqb w EmptyString)) (split_spaces device_tags).

(** The two tests of the guest filter, the second one read literally. *)
Definition is_guest_ap (d : DeviceRecord) : bool :=
  String.eqb (PyStr.slice_to 2 (model d)) "MR" && PyStr.containsb "guest_wireless" (tags d).

Definition is_ap (d : DeviceRecord) : bool :=
  String.eqb (PyStr.slice_to 2 (model d)) "MR".

Definition subnet_match (r : ClientRecord) : bool :=
  Re.search (Re.compile "10.4.17") (ip r).

Definition client_row (r : ClientRecord) : table_row :=
  [CStr (description r); CStr (ip r); CStr (mac r)].

Definition network_row (n : NetworkRecord) : table_row :=
  [CStr (nw_id n); CStr (nw_name n); CStr (nw_tags n)].

Definition usage_row (entry : string * Z) : table_row :=
  [CStr (fst entry); CInt (snd entry)].

(** [r1] may stand before [r2] in a list sorted by [<]: [r2] is not below
    [r1]. *)
Definition row_le (r1 r2 : table_row) : Prop := row_ltb r2 r1 = false.

Definition cell_le (a b : cell) : Prop := cell_compare a b <> Gt.

(** The value of a row in column [i]. *)
Definition column (i : nat) (row : table_row) : cell := nth i row (CStr "").

(** The order of the rows of a table printed with [sortby]: by the sort
    column, upwards, or downwards when [reversesort] is set. *)
Definition sorted_by (i : nat) (reverse : bool) (r1 r2 : table_row) : Prop :=
  if reverse then cell_le (column i r2) (column i r1)
  else cell_le (column i r1) (column i r2).

(** The normalized name of a client, in the words of the specification
    and not of the code: the description in lower case, with every space
    and every period replaced by an underscore.  Lower case is read off the
    two alphabets; text that is not ASCII is lower-cased by the
    interpreter. *)
Definition upper_letters : string := "ABCDEFGHIJKLMNOPQRSTUVWXYZ".

Definition lower_letters : string := "abcdefghijklmnopqrstuvwxyz".

(** The letter of [to] at the place [c] has in [from]; [c] when it is not
    in [from]. *)
Fixpoint translate (from to : string) (c : ascii) : ascii :=
  match from, to with
  | String a from', String b to' => if Ascii.eqb c a then b else translate from' to' c
  | _, _ => c
  end.

Definition lower_case (W : World) (d : string) : string :=
  if PyStr.is_ascii d then PyStr.map_chars (translate upper_letters lower_letters) d
  else unicode_lower W d.

Definition underscore (c : ascii) : ascii :=
  if Ascii.eqb c " " || Ascii.eqb c "." then "_"%char else c.

Definition normalized_name (W : World) (d : string) : string :=
  PyStr.map_chars underscore (lower_case W d).

(** The key under which a client is counted, its traffic, and the total of
    a key over a sequence of records. *)
Definition client_key (W : World) (r : ClientRecord) : string :=
  normalized_name W (description r).

Definition traf_sum (r : ClientRecord) : Z := (sent r + recv r)%Z.

Definition has_key (W : World) (k : string) (l : list ClientRecord) : bool :=
  existsb (fun r => String.eqb (client_key W r) k) l.

Fixpoint usage_total (W : World) (k : string) (l : list ClientRecord) : Z :=
  match l with
  | [] => 0%Z
  | r :: l' =>
      ((if String.eqb (client_key W r) k then traf_sum r else 0) + usage_total W k l')%Z
  end.

(** The dictionary the first loop of [spark_get_top_talkers_cmd] builds
    from all the records fetched, starting from the empty one. *)
Definition aggregate (W : World) (l : list ClientRecord) : gmap string Z :=
  aggregate_rows W l ∅.

(** An event carries [data.id] when both subscripts succeed. *)
Definition data_id (event : json) : outcome json :=
  match subscript event "data" with
  | Ok data => subscript data "id"
  | Raise e => Raise e
  end.

Definition is_spark_post (e : event) : bool :=
  match e with
  | SparkPost _ _ => true
  | _ => false
  end.

(** ** Concrete configurations and worlds, for the examples *)

Definition demo_cfg : Config :=
  {| my_api_key := "key"; my_org_id := "org"; my_net_id := "net";
     tropo_voice_token := "token" |}.

Definition demo_event : json :=
  JObj [("data", JObj [("id", JStr "msg-1"); ("roomId", JStr "room-1")])].

Definition demo_room : json := JStr "room-1".

(** [str.lower] on UTF-8 text whose characters lie below U+0100: the
    letters A to Z, and the capitals U+00C0 to U+00DE of the Latin-1
    supplement (the multiplication sign U+00D7 is none), which UTF-8 writes
    as the byte C3 followed by a byte from 80 to 9E and whose small letters
    lie 32 places further.  The examples hold no other text. *)
Fixpoint latin1_lower (s : string) : string :=
  match s with
  | EmptyString => EmptyString
  | String c s' =>
      if Ascii.eqb c (ascii_of_nat 195) then
        match s' with
        | EmptyString => String c EmptyString
        | String b s'' =>
            let n := nat_of_ascii b in
            if (128 <=? n)%nat && (n <=? 158)%nat && negb (n =? 151)%nat
            then String c (String (ascii_of_nat (n + 32)) (latin1_lower s''))
            else String c (latin1_lower s')
        end
      else String (PyStr.lower_char c) (latin1_lower s')
  end.

(** A world in which the posted message reads [message], the dashboard
    answers with the given values and Tropo with [tropo_status]. *)
Definition demo_world (message : string)
    (inventory : outcome (list InventoryRow))
    (networks : list NetworkRecord)
    (devices : list device_row)
    (clients : string -> list ClientRecord)
    (tropo_status : Z) : World :=
  {| getorginventory := fun _ _ => inventory;
     getnetworklist := fun _ _ => Ok networks;
     getssids := fun _ _ => Ok [];
     getnetworkdevices := fun _ _ => Ok devices;
     getclients := fun _ sn _ => Ok (clients sn);
     spark_get := fun _ => Ok (JObj [("text", JStr message)]);
     spark_post := fun _ _ => Ok 200%Z;
     tropo_post := fun _ _ => Ok tropo_status;
     unicode_lower := latin1_lower |}.

Definition client (name addr : string) (s r : Z) : ClientRecord :=
  {| description := name; ip := addr; mac := "00:11:22:33:44:55"; sent := s; recv := r |}.

Definition demo_clients (sn : string) : list ClientRecord :=
  if String.eqb sn "Q2-AP1" then [client "Ann's Phone" "10.4.17.20" 10 5; client "printer.lab" "192.168.1.7" 1 2]
  else if String.eqb sn "Q2-AP2" then [client "ann's phone" "110.4.17.9" 100 50]
  else [].

Definition demo_device_records : list DeviceRecord :=
  [{| model := "MR33"; serial := "Q2-AP1"; tags := " guest_wireless recently-added " |};
   {| model := "MX64"; serial := "Q2-FW1"; tags := " guest_wireless " |};
   {| model := "MR42"; serial := "Q2-AP2"; tags := " lobby " |}].

Definition demo_devices : list device_row := map RowDevice demo_device_records.

Definition demo_networks : list NetworkRecord :=
  [{| nw_id := "N_3"; nw_name := "warehouse"; nw_tags := " west " |};
   {| nw_id := "N_1"; nw_name := "branch"; nw_tags := "" |};
   {| nw_id := "N_2"; nw_name := "hq"; nw_tags := " east " |}].

(** ** Notions for the further properties *)

(** Every call a computation adds to the trace satisfies [P]. *)
Definition emits {A : Type} (P : event -> Prop) (m : M A) : Prop :=
  forall tr, exists out, snd (m tr) = tr ++ out /\ Forall P out.

(** The text is a string that begins with the rick-roll prefix. *)
Definition is_rick_roll (t_text : json) : bool :=
  match t_text with
  | JStr s => String.prefix "Meraki rick roll " s
  | _ => false
  end.

(** The calls a dashboard handler may make when it is given [api_key],
    [org_id], [net_id] and [room_id]: dashboard requests with these
    arguments and messages to that room. *)
Definition handler_call (api_key org_id net_id : string) (room_id : json) (e : event) : Prop :=
  match e with
  | GetOrgInventory k o | GetNetworkList k o => k = api_key /\ o = org_id
  | GetSsids k n | GetNetworkDevices k n => k = api_key /\ n = net_id
  | GetClients k _ ts => k = api_key /\ (ts = 900%Z \/ ts = 3600%Z)
  | SparkGet _ => False
  | SparkPost r _ => r = room_id
  | TropoPost _ _ => False
  end.

(** The calls the dispatcher may make for [t_text]: those of a handler with
    the configured key and identifiers, and Tropo for a rick-roll command. *)
Definition dispatch_call (cfg : Config) (t_text room_id : json) (e : event) : Prop :=
  match e with
  | TropoPost token _ => is_rick_roll t_text = true /\ token = tropo_voice_token cfg
  | _ => handler_call (my_api_key cfg) (my_org_id cfg) (my_net_id cfg) room_id e
  end.

(** [event['data']['roomId']] *)
Definition event_room (event : json) : outcome json :=
  match subscript event "data" with
  | Ok data => subscript data "roomId"
  | Raise e => Raise e
  end.

Definition is_tropo_post (e : event) : bool :=
  match e with
  | TropoPost _ _ => true
  | _ => false
  end.

Definition is_spark_get (e : event) : bool :=
  match e with
  | SparkGet _ => true
  | _ => false
  end.

(** The dashboard and Tropo requests that carry the configured credentials. *)
Definition uses_config (cfg : Config) (e : event) : Prop :=
  match e with
  | GetOrgInventory k o | GetNetworkList k o => k = my_api_key cfg /\ o = my_org_id cfg
  | GetSsids k n | GetNetworkDevices k n => k = my_api_key cfg /\ n = my_net_id cfg
  | GetClients k _ _ => k = my_api_key cfg
  | TropoPost token _ => token = tropo_voice_token cfg
  | _ => True
  end.

(** When the computation returns, its last call is a message to [room_id]. *)
Definition ends_with_post {A : Type} (room_id : json) (m : M A) : Prop :=
  forall tr r tr', m tr = (Ok r, tr') ->
                   exists pre body, tr' = pre ++ [SparkPost room_id body].

(** [json.loads(get_text.text)['text']]: the text of the fetched message. *)
Definition message_text (W : World) (msg_id : json) : outcome json :=
  match spark_get W msg_id with
  | Ok t => subscript t "text"
  | Raise e => Raise e
  end.

(** The literal commands of [lambda_handler]. *)
Definition commands : list string :=
  ["Meraki get ?"; "Meraki get inventory"; "Meraki get networks"; "Meraki get ssids";
   "Meraki get mr clients"; "Meraki get guest clients"; "Meraki get top talkers"].

(** The text is one of the literal commands or begins with the rick-roll
    prefix. *)
Definition is_known (t_text : json) : bool :=
  match t_text with
  | JStr s => existsb (String.eqb s) commands || String.prefix "Meraki rick roll " s
  | _ => false
  end.

Definition inventory_row (r : InventoryRow) : table_row :=
  [CStr (inv_model r); CStr (inv_serial r); CStr (inv_mac r)].

Definition ssid_row (r : SSIDRecord) : table_row :=
  [CInt (ssid_number r); CStr (ssid_name r); CBool (ssid_enabled r)].

(** The first row of a device list that is a string. *)
Fixpoint first_key (result : list device_row) : option string :=
  match result with
  | [] => None
  | RowKey s :: _ => Some s
  | RowDevice _ :: rest => first_key rest
  end.

(** The normalized name, one character of an ASCII description at a time. *)
Definition normalize_char (c : ascii) : ascii :=
  underscore (translate upper_letters lower_letters c).

Fixpoint Zsum (l : list Z) : Z :=
  match l with
  | [] => 0%Z
  | x :: l' => (x + Zsum l')%Z
  end.

(** The sum of the totals of a usage dictionary. *)
Definition usage_sum (m : gmap string Z) : Z := Zsum (map snd (map_to_list m)).

(** A world in which no service but Spark's post answers. *)
Definition down_world : World :=
  {| getorginventory := fun _ _ => Raise RequestError;
     getnetworklist := fun _ _ => Raise RequestError;
     getssids := fun _ _ => Raise RequestError;
     getnetworkdevices := fun _ _ => Raise RequestError;
     getclients := fun _ _ _ => Raise RequestError;
     spark_get := fun _ => Raise RequestError;
     spark_post := fun _ _ => Ok 200%Z;
     tropo_post := fun _ _ => Raise RequestError;
     unicode_lower := latin1_lower |}.

(** A world in which the clients of the device [bad] cannot be fetched. *)
Definition flaky_world (bad : string) : World :=
  {| getorginventory := fun _ _ => Ok [];
     getnetworklist := fun _ _ => Ok [];
     getssids := fun _ _ => Ok [];
     getnetworkdevices := fun _ _ => Ok demo_devices;
     getclients := fun _ sn _ =>
       if String.eqb sn bad then Raise RequestError else Ok (demo_clients sn);
     spark_get := fun _ => Ok (JObj [("text", JStr "Meraki get mr clients")]);
     spark_post := fun _ _ => Ok 200%Z;
     tropo_post := fun _ _ => Ok 200%Z;
     unicode_lower := latin1_lower |}.

(** A world in which the clients of the device [bad] cannot be fetched for
    the last 900 seconds, and can be for any other time window. *)
Definition window_world (bad : string) : World :=
  {| getorginventory := fun _ _ => Ok [];
     getnetworklist := fun _ _ => Ok [];
     getssids := fun _ _ => Ok [];
     getnetworkdevices := fun _ _ => Ok demo_devices;
     getclients := fun _ sn ts =>
       if String.eqb sn bad && (ts =? 900)%Z then Raise RequestError
       else Ok (demo_clients sn);
     spark_get := fun _ => Ok (JObj [("text", JStr "Meraki get mr clients")]);
     spark_post := fun _ _ => Ok 200%Z;
     tropo_post := fun _ _ => Ok 200%Z;
     unicode_lower := latin1_lower |}.

Definition demo_inventory : list InventoryRow :=
  [{| inv_model := "MR33"; inv_serial := "Q2-AP1"; inv_mac := "00:18:0a:00:00:01" |};
   {| inv_model := "MX64"; inv_serial := "Q2-FW1"; inv_mac := "00:18:0a:00:00:02" |}].

Definition demo_ssids : list SSIDRecord :=
  [{| ssid_number := 0; ssid_name := "corp"; ssid_enabled := true |};
   {| ssid_number := 1; ssid_name := "guest"; ssid_enabled := false |}].

(** A world with an inventory and SSIDs, whose message has no text. *)
Definition ssid_world : World :=
  {| getorginventory := fun _ _ => Ok demo_inventory;
     getnetworklist := fun _ _ => Ok demo_networks;
     getssids := fun _ _ => Ok demo_ssids;
     getnetworkdevices := fun _ _ => Ok demo_devices;
     getclients := fun _ sn _ => Ok (demo_clients sn);
     spark_get := fun _ => Ok (JObj []);
     spark_post := fun _ _ => Ok 200%Z;
     tropo_post := fun _ _ => Ok 200%Z;
     unicode_lower := latin1_lower |}.

Definition help_world : World :=
  demo_world "Meraki get ?" (Ok []) demo_networks demo_devices demo_clients 200.

(** * Properties *)

(** ** Strings *)

Lemma app_nil_l_str (s : string) : "" +:+ s = s.
Proof. reflexivity. Qed.

Lemma app_cons_str (c : ascii) (s1 s2 : string) :
  String c s1 +:+ s2 = String c (s1 +:+ s2).
Proof. reflexivity. Qed.

Lemma prefix_cons (a b : ascii) (p s : string) :
  String.prefix (String a p) (String b s) = Ascii.eqb a b && String.prefix p s.
Proof.
  simpl. destruct (ascii_dec a b) as [->|Hne].
  - by rewrite Ascii.eqb_refl.
  - apply Ascii.eqb_neq in Hne. by rewrite Hne.
Qed.

Lemma prefix_nil (s : string) : String.prefix "" s = true.
Proof. by destruct s. Qed.

Lemma prefix_app (p rest : string) : String.prefix p (p +:+ rest) = true.
Proof.
  induction p as [|c p IH]; [apply prefix_nil|].
  rewrite app_cons_str, prefix_cons, Ascii.eqb_refl. exact IH.
Qed.

Lemma prefix_inv (p s : string) :
  String.prefix p s = true -> exists rest, s = p +:+ rest.
Proof.
  revert s. induction p as [|c p IH]; intros s H.
  - by exists s.
  - destruct s as [|b s]; [discriminate|].
    rewrite prefix_cons in H. apply andb_true_iff in H as [Hc Hp].
    apply Ascii.eqb_eq in Hc as ->.
    destruct (IH _ Hp) as [rest ->]. by exists rest.
Qed.

Lemma slice_from_app (p rest : string) :
  PyStr.slice_from (String.length p) (p +:+ rest) = rest.
Proof. induction p as [|c p IH]; [by destruct rest|exact IH]. Qed.

Lemma partition_prefix (sep rest : string) :
  PyStr.partition sep (sep +:+ rest) = Some ("", rest).
Proof.
  destruct sep as [|c sep].
  - by destruct rest.
  - rewrite app_cons_str. cbn [PyStr.partition].
    rewrite <- app_cons_str, prefix_app, slice_from_app. reflexivity.
Qed.

Lemma split1_prefix (sep rest : string) :
  PyStr.split1 sep (sep +:+ rest) = [""; rest].
Proof. unfold PyStr.split1. by rewrite partition_prefix. Qed.

Lemma contains_cons (c : ascii) (sub s : string) :
  PyStr.contains sub s -> PyStr.contains sub (String c s).
Proof. intros (pre & post & ->). by exists (String c pre), post. Qed.

Lemma prefix_contains (sub s : string) :
  String.prefix sub s = true -> PyStr.contains sub s.
Proof. intros [rest ->]%prefix_inv. by exists "", rest. Qed.

Lemma containsb_spec (sub s : string) :
  PyStr.containsb sub s = true <-> PyStr.contains sub s.
Proof.
  split.
  - induction s as [|c s IH]; cbn [PyStr.containsb]; intros H;
      apply orb_true_iff in H as [H|H]; try discriminate.
    + by apply prefix_contains.
    + by apply prefix_contains.
    + apply contains_cons; auto.
  - intros (pre & post & ->). induction pre as [|c pre IH].
    + rewrite app_nil_l_str.
      destruct (sub +:+ post) eqn:E; cbn [PyStr.containsb]; rewrite <- E;
        by rewrite prefix_app.
    + rewrite app_cons_str. cbn [PyStr.containsb]. rewrite IH. apply orb_true_r.
Qed.

(** ** The regular expressions of the source *)

Lemma search_spec (p : Re.pattern) (s : string) :
  Re.search p s = true <->
  exists pre rest, s = pre +:+ rest /\ Re.match_here p rest = true.
Proof.
  split.
  - induction s as [|c s IH]; cbn [Re.search]; intros H;
      apply orb_true_iff in H as [H|H]; try discriminate.
    + by exists "", "".
    + by exists "", (String c s).
    + destruct (IH H) as (pre & rest & -> & Hm). by exists (String c pre), rest.
  - intros (pre & rest & -> & Hm). induction pre as [|c pre IH].
    + rewrite app_nil_l_str. destruct rest; cbn [Re.search]; by rewrite Hm.
    + rewrite app_cons_str. cbn [Re.search]. rewrite IH. apply orb_true_r.
Qed.

Lemma match_here_literal (p s : string) :
  Re.literal p = true ->
  Re.match_here (Re.compile p) s = String.prefix p s.
Proof.
  revert s. induction p as [|c p IH]; intros s Hlit.
  - by destruct s.
  - cbn [Re.literal] in Hlit. apply andb_true_iff in Hlit as [Hc Hp].
    apply negb_true_iff in Hc.
    cbn [Re.compile]. rewrite Hc.
    destruct s as [|b s]; cbn [Re.match_here]; [done|].
    rewrite prefix_cons, IH by done. cbn [Re.atom_matches].
    by rewrite Ascii.eqb_sym.
Qed.

Lemma search_literal (p s : string) :
  Re.literal p = true ->
  Re.search (Re.compile p) s = PyStr.containsb p s.
Proof.
  intros Hlit. induction s as [|c s IH]; cbn [Re.search PyStr.containsb].
  - by rewrite match_here_literal.
  - by rewrite match_here_literal, IH.
Qed.

(** A literal occurrence of a pattern without newlines is a match of the
    pattern: a dot matches a dot. *)
Lemma prefix_match_here (p s : string) :
  Re.no_newline p = true ->
  String.prefix p s = true ->
  Re.match_here (Re.compile p) s = true.
Proof.
  revert s. induction p as [|c p IH]; intros s Hnl Hp; [by destruct s|].
  destruct s as [|b s]; [discriminate|].
  rewrite prefix_cons in Hp. apply andb_true_iff in Hp as [Hc Hp].
  apply Ascii.eqb_eq in Hc as <-.
  cbn [Re.no_newline] in Hnl. apply andb_true_iff in Hnl as [Hc Hnl].
  cbn [Re.compile Re.match_here]. rewrite IH by done.
  destruct (Ascii.eqb c "."); cbn [Re.atom_matches];
    [by rewrite Hc | by rewrite Ascii.eqb_refl].
Qed.

Lemma contains_search (p s : string) :
  Re.no_newline p = true ->
  PyStr.contains p s -> Re.search (Re.compile p) s = true.
Proof.
  intros Hnl (pre & post & ->). apply search_spec.
  exists pre, (p +:+ post). split; [done|].
  apply prefix_match_here; [done|apply prefix_app].
Qed.

(** ** Dotted-decimal addresses and the subnet pattern *)

Lemma octets_ok_suffix (pre rest : string) (run : nat) :
  octets_ok run (pre +:+ rest) = true -> exists run', octets_ok run' rest = true.
Proof.
  revert run. induction pre as [|c pre IH]; intros run H.
  - by exists run.
  - rewrite app_cons_str in H. cbn [octets_ok] in H.
    destruct (is_digit c); [apply andb_true_iff in H as [_ H]; eauto|].
    destruct (Ascii.eqb c "."); [eauto|discriminate].
Qed.

(** At a position of a dotted-decimal string where the pattern [10.4.17]
    matches, each dot of the pattern stands on a dot: a digit there would
    make a run of four digits. *)
Lemma subnet_match_here_dotted (run : nat) (s : string) :
  octets_ok run s = true ->
  Re.match_here (Re.compile "10.4.17") s = true ->
  String.prefix "10.4.17" s = true.
Proof.
  intros Hok Hm.
  destruct s as [|c1 [|c2 [|x [|c4 [|y [|c6 [|c7 s]]]]]]];
    try (cbn in Hm; repeat (apply andb_true_iff in Hm as [_ Hm]); discriminate).
  cbn in Hm.
  repeat match goal with
         | H : _ && _ = true |- _ => apply andb_true_iff in H as [? H]
         | H : Ascii.eqb _ _ = true |- _ => apply Ascii.eqb_eq in H; subst
         end.
  rewrite !prefix_cons, prefix_nil.
  cbn [octets_ok] in Hok.
  change (is_digit "1") with true in Hok. change (is_digit "0") with true in Hok.
  change (is_digit "4") with true in Hok. change (is_digit "7") with true in Hok.
  cbv iota in Hok.
  repeat match type of Hok with
         | _ && _ = true => apply andb_true_iff in Hok as [? Hok]
         end.
  destruct (is_digit x) eqn:D1.
  { repeat match type of Hok with
           | _ && _ = true => apply andb_true_iff in Hok as [? Hok]
           end.
    repeat match goal with
           | H : (_ <? _)%nat = true |- _ => apply Nat.ltb_lt in H
           end. lia. }
  destruct (Ascii.eqb x ".") eqn:E1; [|discriminate].
  apply Ascii.eqb_eq in E1 as ->.
  repeat match type of Hok with
         | _ && _ = true => apply andb_true_iff in Hok as [? Hok]
         end.
  destruct (is_digit y) eqn:D3.
  { repeat match type of Hok with
           | _ && _ = true => apply andb_true_iff in Hok as [? Hok]
           end.
    repeat match goal with
           | H : (_ <? _)%nat = true |- _ => apply Nat.ltb_lt in H
           end. lia. }
  destruct (Ascii.eqb y ".") eqn:E3; [|discriminate].
  apply Ascii.eqb_eq in E3 as ->.
  reflexivity.
Qed.

Lemma subnet_search_dotted (s : string) :
  dotted_decimal s = true ->
  Re.search (Re.compile "10.4.17") s = true ->
  PyStr.contains "10.4.17" s.
Proof.
  intros Hok (pre & rest & -> & Hm)%search_spec.
  destruct (octets_ok_suffix pre rest 0 Hok) as [run Hrest].
  destruct (prefix_inv _ _ (subnet_match_here_dotted run rest Hrest Hm)) as [post ->].
  by exists pre, post.
Qed.

(** ** Tags as words *)

Lemma split_spaces_words (s : string) :
  (exists w ws, split_spaces s = w :: ws /\ String.prefix w s = true) /\
  (forall w, In w (split_spaces s) -> PyStr.contains w s).
Proof.
  induction s as [|c s [(w0 & ws & Hs & Hp) IH]]; cbn [split_spaces].
  - split; [by exists "", []|].
    intros w [<-|[]]. by exists "", "".
  - destruct (Ascii.eqb c " ").
    + split; [by exists "", (split_spaces s)|].
      intros w [<-|Hin]; [by exists "", (String c s)|].
      apply contains_cons; auto.
    + rewrite Hs. split.
      * exists (String c w0), ws. split; [done|].
        by rewrite prefix_cons, Ascii.eqb_refl.
      * intros w [<-|Hin].
        -- apply prefix_contains. by rewrite prefix_cons, Ascii.eqb_refl.
        -- apply contains_cons, IH. rewrite Hs. by right.
Qed.

Lemma tag_set_contains (w device_tags : string) :
  In w (tag_set device_tags) -> PyStr.contains w device_tags.
Proof.
  unfold tag_set. intros [Hin _]%filter_In. by apply split_spaces_words.
Qed.

(** ** The two access-point functions *)

Lemma guest_search_containsb (device_tags : string) :
  Re.search (Re.compile "guest_wireless") device_tags
  = PyStr.containsb "guest_wireless" device_tags.
Proof. by apply search_literal. Qed.

Lemma guest_ap_rows_devices (devs : list DeviceRecord) (acc : list string) :
  guest_ap_rows (map RowDevice devs) acc
  = Ok (Serials (acc ++ map serial (List.filter is_guest_ap devs))).
Proof.
  revert acc. induction devs as [|d devs IH]; intros acc; cbn [map guest_ap_rows].
  - by rewrite app_nil_r.
  - rewrite guest_search_containsb. cbn [List.filter]. unfold is_guest_ap at 1.
    destruct (_ && _); rewrite IH; [|done].
    cbn [map]. by rewrite <- app_assoc.
Qed.

(** The access-point filter: the serials of the devices whose model begins
    with [MR], in order. *)
Lemma ap_rows_devices (devs : list DeviceRecord) (acc : list string) :
  ap_rows (map RowDevice devs) acc
  = Ok (Serials (acc ++ map serial (List.filter is_ap devs))).
Proof.
  revert acc. induction devs as [|d devs IH]; intros acc; cbn [map ap_rows].
  - by rewrite app_nil_r.
  - cbn [List.filter]. unfold is_ap at 1.
    destruct (String.eqb _ _); rewrite IH; [|done].
    cbn [map]. by rewrite <- app_assoc.
Qed.



(** ** Running loops and handlers *)

Lemma for_each_calls {A S : Type} (l : list A) (body : A -> S -> M S)
    (step : A -> S -> S) (ev : A -> event) (s : S) (tr : trace) :
  (forall x st tr', In x l -> body x st tr' = (Ok (step x st), tr' ++ [ev x])) ->
  for_each l body s tr
  = (Ok (fold_left (fun st x => step x st) l s), tr ++ map ev l).
Proof.
  revert s tr. induction l as [|x l IH]; intros s tr Hbody; cbn [for_each map fold_left].
  - unfold ret. by rewrite app_nil_r.
  - unfold bind. rewrite Hbody by (by left).
    rewrite IH by (intros; apply Hbody; by right).
    by rewrite <- app_assoc.
Qed.

(** The inner loop of the guest handler is a filter. *)
Lemma guest_client_rows_filter (result : list ClientRecord) (n : nat) (t : PrettyTable) :
  guest_client_rows result (n, t)
  = (n + length (List.filter subnet_match result),
     {| field_names := field_names t;
        rows := rows t ++ map client_row (List.filter subnet_match result);
        reversesort := reversesort t |}).
Proof.
  unfold guest_client_rows. revert n t.
  induction result as [|r result IH]; intros n t; cbn [fold_left List.filter].
  - cbn. rewrite Nat.add_0_r, app_nil_r. by destruct t.
  - unfold guest_client_step at 2. fold (subnet_match r).
    destruct (subnet_match r).
    + rewrite IH. cbn. f_equal; [lia|]. by rewrite <- app_assoc.
    + apply IH.
Qed.

Lemma mr_client_rows_all (result : list ClientRecord) (n : nat) (t : PrettyTable) :
  mr_client_rows result (n, t)
  = (n + length result,
     {| field_names := field_names t;
        rows := rows t ++ map client_row result;
        reversesort := reversesort t |}).
Proof.
  unfold mr_client_rows. revert n t.
  induction result as [|r result IH]; intros n t; cbn [fold_left].
  - cbn. rewrite Nat.add_0_r, app_nil_r. by destruct t.
  - unfold mr_client_step at 2. rewrite IH. cbn.
    f_equal; [lia|]. by rewrite <- app_assoc.
Qed.

(** ** Sorting the rows of a table *)

Lemma cell_compare_antisym (a b : cell) :
  cell_compare a b = CompOpp (cell_compare b a).
Proof.
  destruct a, b; cbn; try reflexivity;
    first [apply String.compare_antisym | apply Z.compare_antisym].
Qed.

Lemma row_compare_antisym (r1 r2 : table_row) :
  row_compare r1 r2 = CompOpp (row_compare r2 r1).
Proof.
  revert r2. induction r1 as [|a r1 IH]; intros [|b r2]; cbn [row_compare]; try reflexivity.
  rewrite (cell_compare_antisym b a).
  destruct (cell_compare a b); cbn; [apply IH|reflexivity..].
Qed.

Lemma row_ltb_asym (r1 r2 : table_row) :
  row_ltb r1 r2 = true -> row_ltb r2 r1 = false.
Proof.
  unfold row_ltb. rewrite (row_compare_antisym r2 r1).
  by destruct (row_compare r1 r2).
Qed.

Lemma row_le_head (a b : cell) (r1 r2 : table_row) :
  row_le (a :: r1) (b :: r2) -> cell_le a b.
Proof.
  unfold row_le, row_ltb, cell_le. cbn [row_compare].
  rewrite (cell_compare_antisym a b).
  by destruct (cell_compare b a).
Qed.

Lemma insert_row_perm (x : table_row) (l : list table_row) :
  Permutation (insert_row x l) (x :: l).
Proof.
  induction l as [|y l IH]; cbn [insert_row]; [done|].
  destruct (row_ltb y x); [|done].
  rewrite IH. apply perm_swap.
Qed.

Lemma sort_rows_perm (l : list table_row) : Permutation (sort_rows l) l.
Proof.
  induction l as [|x l IH]; cbn [sort_rows]; [done|].
  by rewrite insert_row_perm, IH.
Qed.

Lemma insert_row_hdrel (x y : table_row) (l : list table_row) :
  row_le y x -> HdRel row_le y l -> HdRel row_le y (insert_row x l).
Proof.
  intros Hyx Hhd. destruct Hhd as [|z l Hyz]; cbn [insert_row].
  - by constructor.
  - destruct (row_ltb z x); by constructor.
Qed.

Lemma insert_row_sorted (x : table_row) (l : list table_row) :
  Sorted row_le l -> Sorted row_le (insert_row x l).
Proof.
  induction 1 as [|y l Hs IH Hhd]; cbn [insert_row].
  - by repeat constructor.
  - destruct (row_ltb y x) eqn:Hyx.
    + constructor; [exact IH|].
      apply insert_row_hdrel; [|done]. by apply row_ltb_asym.
    + constructor; [by constructor|]. by constructor.
Qed.

Lemma sort_rows_sorted (l : list table_row) : Sorted row_le (sort_rows l).
Proof.
  induction l as [|x l IH]; cbn [sort_rows]; [constructor|].
  by apply insert_row_sorted.
Qed.

Lemma py_sort_perm (reverse : bool) (l : list table_row) :
  Permutation (py_sort reverse l) l.
Proof.
  unfold py_sort. destruct reverse; [|apply sort_rows_perm].
  by rewrite <- Permutation_rev, sort_rows_perm, <- Permutation_rev.
Qed.

Lemma py_sort_sorted (reverse : bool) (l : list table_row) :
  Sorted (if reverse then flip row_le else row_le) (py_sort reverse l).
Proof.
  unfold py_sort. destruct reverse; [|apply sort_rows_sorted].
  rewrite rev_alt. apply (Sorted_reverse row_le), sort_rows_sorted.
Qed.

Lemma Sorted_map_on {A B : Type} (P : A -> Prop) (R : relation A) (R' : relation B)
    (f : A -> B) (l : list A) :
  (forall x y, P x -> P y -> R x y -> R' (f x) (f y)) ->
  Forall P l -> Sorted R l -> Sorted R' (map f l).
Proof.
  intros Himp HP Hs. induction Hs as [|x l Hs IH Hhd]; cbn [map]; [constructor|].
  inversion HP as [|? ? Px Pl]; subst.
  constructor; [by apply IH|].
  destruct Hhd as [|y l Hxy]; cbn [map]; constructor.
  inversion Pl; subst. by apply Himp.
Qed.

(** Python's order on rows is a total preorder, so a sorted arrangement of
    rows that are equal whenever they compare equal is unique. *)

Lemma string_compare_refl (s : string) : String.compare s s = Eq.
Proof.
  induction s as [|c s IH]; [done|]. cbn [String.compare].
  unfold Ascii.compare. by rewrite N.compare_refl.
Qed.

Lemma string_compare_trans (a b c : string) (x : comparison) :
  String.compare a b = x -> String.compare b c = x -> String.compare a c = x.
Proof.
  destruct x.
  - intros ->%String.compare_eq_iff ->%String.compare_eq_iff. apply string_compare_refl.
  - intros H1 H2. apply OrderedTypeEx.String_as_OT.cmp_lt in H1, H2.
    apply OrderedTypeEx.String_as_OT.cmp_lt.
    eapply OrderedTypeEx.String_as_OT.lt_trans; eauto.
  - intros H1 H2.
    rewrite String.compare_antisym in H1, H2. rewrite String.compare_antisym.
    apply (f_equal CompOpp) in H1, H2. rewrite CompOpp_involutive in H1, H2. cbn in H1, H2.
    apply OrderedTypeEx.String_as_OT.cmp_lt in H1, H2.
    assert (H : String.compare c a = Lt).
    { apply OrderedTypeEx.String_as_OT.cmp_lt.
      eapply OrderedTypeEx.String_as_OT.lt_trans; eauto. }
    by rewrite H.
Qed.

Lemma Z_compare_trans (a b c : Z) (x : comparison) :
  Z.compare a b = x -> Z.compare b c = x -> Z.compare a c = x.
Proof.
  destruct x.
  - intros ->%Z.compare_eq_iff ->%Z.compare_eq_iff. apply Z.compare_refl.
  - rewrite !Z.compare_lt_iff. lia.
  - rewrite !Z.compare_gt_iff. lia.
Qed.

Lemma cell_compare_trans (a b c : cell) (x : comparison) :
  cell_compare a b = x -> cell_compare b c = x -> cell_compare a c = x.
Proof.
  destruct a, b, c; cbn [cell_compare cell_number]; intros H1 H2;
    first [congruence | eapply string_compare_trans; eauto | eapply Z_compare_trans; eauto].
Qed.

Lemma cell_compare_eq_l (a b c : cell) :
  cell_compare a b = Eq -> cell_compare a c = cell_compare b c.
Proof.
  destruct a, b, c; cbn [cell_compare cell_number]; intros H;
    first [discriminate | reflexivity
          | apply String.compare_eq_iff in H; by subst
          | apply Z.compare_eq_iff in H; by rewrite H ].
Qed.

Lemma cell_compare_eq_r (a b c : cell) :
  cell_compare b c = Eq -> cell_compare a b = cell_compare a c.
Proof.
  intros H. rewrite (cell_compare_antisym a b), (cell_compare_antisym a c).
  f_equal. symmetry. apply cell_compare_eq_l.
  rewrite cell_compare_antisym, H. reflexivity.
Qed.

Lemma row_compare_eq_l (r1 r2 r3 : table_row) :
  row_compare r1 r2 = Eq -> row_compare r1 r3 = row_compare r2 r3.
Proof.
  revert r2 r3. induction r1 as [|a r1 IH]; intros [|b r2] [|c r3];
    cbn [row_compare]; try done.
  destruct (cell_compare a b) eqn:Hab; try done. intros H.
  rewrite (cell_compare_eq_l a b c Hab).
  destruct (cell_compare b c); auto.
Qed.

Lemma row_compare_trans (r1 r2 r3 : table_row) (x : comparison) :
  row_compare r1 r2 = x -> row_compare r2 r3 = x -> row_compare r1 r3 = x.
Proof.
  revert r2 r3. induction r1 as [|a r1 IH]; intros [|b r2] [|c r3];
    cbn [row_compare]; try congruence.
  destruct (cell_compare a b) eqn:Hab.
  - rewrite (cell_compare_eq_l a b c Hab).
    destruct (cell_compare b c); eauto.
  - destruct (cell_compare b c) eqn:Hbc.
    + rewrite (cell_compare_eq_r a b c Hbc) in Hab. rewrite Hab. done.
    + rewrite (cell_compare_trans a b c Lt Hab Hbc). done.
    + congruence.
  - destruct (cell_compare b c) eqn:Hbc.
    + rewrite (cell_compare_eq_r a b c Hbc) in Hab. rewrite Hab. done.
    + congruence.
    + rewrite (cell_compare_trans a b c Gt Hab Hbc). done.
Qed.

Lemma row_compare_eq_r (r1 r2 r3 : table_row) :
  row_compare r2 r3 = Eq -> row_compare r1 r2 = row_compare r1 r3.
Proof.
  intros H. rewrite (row_compare_antisym r1 r2), (row_compare_antisym r1 r3).
  f_equal. apply row_compare_eq_l. exact H.
Qed.

Lemma row_le_compare (r1 r2 : table_row) : row_le r1 r2 <-> row_compare r1 r2 <> Gt.
Proof.
  unfold row_le, row_ltb. rewrite (row_compare_antisym r2 r1).
  destruct (row_compare r1 r2); cbn; split; congruence.
Qed.

Lemma row_le_trans : Transitive row_le.
Proof.
  intros r1 r2 r3. rewrite !row_le_compare. intros H12 H23.
  destruct (row_compare r1 r2) eqn:E12; [| |done].
  - by rewrite (row_compare_eq_l r1 r2 r3 E12).
  - destruct (row_compare r2 r3) eqn:E23; [| |done].
    + by rewrite <- (row_compare_eq_r r1 r2 r3 E23), E12.
    + by rewrite (row_compare_trans r1 r2 r3 Lt E12 E23).
Qed.

Lemma sort_rows_unique (l1 l2 : list table_row) :
  Permutation l1 l2 ->
  (forall x y, In x l1 -> In y l1 -> row_compare x y = Eq -> x = y) ->
  sort_rows l1 = sort_rows l2.
Proof.
  intros Hp Heq.
  pose proof row_le_trans as Htrans.
  apply (Sorted_unique_strong row_le).
  - intros x y Hx Hy Hxy Hyx. apply Heq.
    + apply list_elem_of_In in Hx. eapply Permutation_in; [apply sort_rows_perm|done].
    + apply list_elem_of_In in Hy. eapply Permutation_in; [|exact Hy].
      by rewrite sort_rows_perm.
    + apply row_le_compare in Hxy, Hyx. rewrite row_compare_antisym in Hyx.
      by destruct (row_compare x y).
  - apply sort_rows_sorted.
  - apply sort_rows_sorted.
  - by rewrite !sort_rows_perm.
Qed.

Lemma py_sort_unique (reverse : bool) (l1 l2 : list table_row) :
  Permutation l1 l2 ->
  (forall x y, In x l1 -> In y l1 -> row_compare x y = Eq -> x = y) ->
  py_sort reverse l1 = py_sort reverse l2.
Proof.
  intros Hp Heq. unfold py_sort. destruct reverse; [|by apply sort_rows_unique].
  f_equal. apply sort_rows_unique.
  - by rewrite <- !Permutation_rev.
  - intros x y Hx%in_rev Hy%in_rev. by apply Heq.
Qed.

(** Printing with [sortby]: the rows of the table, rearranged, in the
    order of the sort column. *)
Lemma get_string_sortby_sorted (name : string) (t : PrettyTable) (i : nat) :
  index_of name (field_names t) = Some i ->
  exists body,
    get_string_sortby name t = Ok (Rendered (field_names t) body) /\
    Permutation body (rows t) /\
    Sorted (sorted_by i (reversesort t)) body.
Proof.
  intros Hi. unfold get_string_sortby. rewrite Hi.
  set (dec := fun row : table_row => nth i row (CStr "") :: row).
  set (sorted := py_sort (reversesort t) (map dec (rows t))).
  exists (map (fun row => tl row) sorted). split; [done|].
  assert (Hperm : Permutation sorted (map dec (rows t))) by apply py_sort_perm.
  split.
  - rewrite Hperm, map_map. cbn. by rewrite map_id.
  - apply (Sorted_map_on (fun d => exists r, d = dec r)
             (if reversesort t then flip row_le else row_le)).
    + intros x y [r1 ->] [r2 ->] Hxy. cbn [tl]. unfold sorted_by, column.
      destruct (reversesort t); [unfold flip in Hxy|]; by eapply row_le_head.
    + eapply Permutation_Forall; [symmetry; exact Hperm|].
      apply List.Forall_forall. intros d (r & <- & _)%in_map_iff. by exists r.
    + apply py_sort_sorted.
Qed.

(** ** Usage aggregation *)

Lemma map_chars_compose (f g : ascii -> ascii) (s : string) :
  PyStr.map_chars f (PyStr.map_chars g s) = PyStr.map_chars (fun c => f (g c)) s.
Proof. induction s as [|c s IH]; cbn; [done|]. by rewrite IH. Qed.

Lemma map_chars_ext (f g : ascii -> ascii) (s : string) :
  (forall c, f c = g c) -> PyStr.map_chars f s = PyStr.map_chars g s.
Proof. intros Hfg. induction s as [|c s IH]; cbn; [done|]. by rewrite Hfg, IH. Qed.

(** The arithmetic on character codes of [lower_char] and the two
    alphabets give the same letter. *)
Lemma lower_char_letters (c : ascii) :
  PyStr.lower_char c = translate upper_letters lower_letters c.
Proof. by destruct c as [[] [] [] [] [] [] [] []]. Qed.

Lemma lower_case_spec (W : World) (d : string) :
  PyStr.lower (unicode_lower W) d = lower_case W d.
Proof.
  unfold PyStr.lower, lower_case. destruct (PyStr.is_ascii d); [|done].
  apply map_chars_ext, lower_char_letters.
Qed.

(** The two replacements of the source, one after the other, are the one
    pass of the specification. *)
Lemma normalize_spec (W : World) (d : string) : normalize W d = normalized_name W d.
Proof.
  unfold normalize, normalized_name, PyStr.replace_char.
  rewrite map_chars_compose, lower_case_spec. apply map_chars_ext.
  intros c. unfold underscore. by destruct (Ascii.eqb c " ").
Qed.

Lemma lookup_add_usage (W : World) (m : gmap string Z) (r : ClientRecord) (k : string) :
  add_usage W m r !! k
  = if String.eqb (client_key W r) k
    then Some (default 0%Z (m !! k) + traf_sum r)%Z
    else m !! k.
Proof.
  unfold add_usage. rewrite normalize_spec.
  fold (client_key W r). fold (traf_sum r).
  destruct (String.eqb_spec (client_key W r) k) as [->|Hne].
  - destruct (m !! k) as [total|]; by rewrite lookup_insert_eq.
  - destruct (m !! client_key W r); by rewrite lookup_insert_ne.
Qed.

Lemma usage_total_no_key (W : World) (k : string) (l : list ClientRecord) :
  has_key W k l = false -> usage_total W k l = 0%Z.
Proof.
  unfold has_key. induction l as [|r l IH]; cbn [existsb usage_total]; [done|].
  intros [-> Hl]%orb_false_iff. rewrite IH by done. lia.
Qed.

Lemma lookup_aggregate_rows (W : World) (l : list ClientRecord) (m : gmap string Z)
    (k : string) :
  aggregate_rows W l m !! k
  = if has_key W k l
    then Some (default 0%Z (m !! k) + usage_total W k l)%Z
    else m !! k.
Proof.
  unfold aggregate_rows. revert m.
  induction l as [|r l IH]; intros m; cbn [fold_left has_key existsb usage_total]; [done|].
  fold (has_key W k l). rewrite IH, lookup_add_usage.
  destruct (String.eqb (client_key W r) k), (has_key W k l) eqn:Hk; cbn; try done.
  - f_equal. lia.
  - rewrite (usage_total_no_key W k l Hk). f_equal. lia.
Qed.

Lemma lookup_aggregate (W : World) (l : list ClientRecord) (k : string) :
  aggregate W l !! k = if has_key W k l then Some (usage_total W k l) else None.
Proof.
  unfold aggregate. rewrite lookup_aggregate_rows, lookup_empty.
  by destruct (has_key W k l).
Qed.

Lemma has_key_app (W : World) (k : string) (l1 l2 : list ClientRecord) :
  has_key W k (l1 ++ l2) = has_key W k l1 || has_key W k l2.
Proof. apply existsb_app. Qed.

Lemma usage_total_app (W : World) (k : string) (l1 l2 : list ClientRecord) :
  usage_total W k (l1 ++ l2) = (usage_total W k l1 + usage_total W k l2)%Z.
Proof.
  induction l1 as [|r l1 IH]; cbn [app usage_total]; [done|]. rewrite IH. lia.
Qed.

Lemma has_key_perm (W : World) (k : string) (l1 l2 : list ClientRecord) :
  Permutation l1 l2 -> has_key W k l1 = has_key W k l2.
Proof.
  unfold has_key.
  induction 1 as [|r l1 l2 _ IH|r1 r2 l|l1 l2 l3 _ IH1 _ IH2]; cbn [existsb].
  - done.
  - by rewrite IH.
  - by rewrite !orb_assoc, (orb_comm (String.eqb (client_key W r2) k)).
  - by rewrite IH1.
Qed.

Lemma usage_total_perm (W : World) (k : string) (l1 l2 : list ClientRecord) :
  Permutation l1 l2 -> usage_total W k l1 = usage_total W k l2.
Proof.
  induction 1 as [|r l1 l2 _ IH|r1 r2 l|l1 l2 l3 _ IH1 _ IH2]; cbn [usage_total].
  - done.
  - by rewrite IH.
  - lia.
  - by rewrite IH1.
Qed.

Lemma aggregate_perm (W : World) (l1 l2 : list ClientRecord) :
  Permutation l1 l2 -> aggregate W l1 = aggregate W l2.
Proof.
  intros Hp. apply map_eq. intros k. rewrite !lookup_aggregate.
  by rewrite (has_key_perm W k l1 l2 Hp), (usage_total_perm W k l1 l2 Hp).
Qed.

(** Names outside ASCII are lower-cased by the interpreter: where it knows
    the capitals of the Latin-1 supplement, the two spellings of one
    accented name count as one client. *)
Lemma accented_names_merge :
  let W := demo_world "Meraki get top talkers" (Ok []) demo_networks demo_devices
                      demo_clients 200 in
  aggregate W [client "Éric Blanc" "10.4.17.21" 1 2; client "éric.blanc" "10.4.17.22" 3 4]
  !! "éric_blanc" = Some 10%Z.
Proof. cbn zeta. rewrite lookup_aggregate. vm_compute. reflexivity. Qed.

(** The entries of the dictionary, one by one: a key occurs once, and it
    occurs with the total of the records counted under it. *)
Lemma aggregate_entries (W : World) (l : list ClientRecord) (entries : list (string * Z)) :
  Permutation entries (map_to_list (aggregate W l)) ->
  NoDup (map fst entries) /\
  (forall k v, In (k, v) entries <-> has_key W k l = true /\ v = usage_total W k l).
Proof.
  intros Hp. split.
  - rewrite Hp. apply (NoDup_fst_map_to_list (aggregate W l)).
  - intros k v. rewrite <- list_elem_of_In, Hp, elem_of_map_to_list, lookup_aggregate.
    destruct (has_key W k l); split.
    + by intros [= <-].
    + by intros [_ ->].
    + done.
    + by intros [? _].
Qed.

(** The second loop of the top-talkers handler. *)
Lemma usage_rows_fold (entries : list (string * Z)) (t : PrettyTable) :
  fold_left usage_step entries t
  = {| field_names := field_names t;
       rows := rows t ++ map usage_row entries;
       reversesort := match entries with [] => reversesort t | _ :: _ => true end |}.
Proof.
  revert t. induction entries as [|[name usage] entries IH]; intros t; cbn [fold_left map].
  - rewrite app_nil_r. by destruct t.
  - rewrite IH. cbn. rewrite <- app_assoc. by destruct entries.
Qed.

(** The printed usage table does not depend on the order in which the
    dictionary is visited: the decorated rows are sorted as whole rows, and
    two usage rows that compare equal are the same row. *)
Lemma usage_table_any_order (entries1 entries2 : list (string * Z)) :
  Permutation entries1 entries2 ->
  let table := new_table ["Client"; "Usage - kbytes past hour"] in
  get_string_sortby "Usage - kbytes past hour" (fold_left usage_step entries1 table)
  = get_string_sortby "Usage - kbytes past hour" (fold_left usage_step entries2 table).
Proof.
  intros Hp table. rewrite !usage_rows_fold. unfold get_string_sortby.
  cbn [field_names rows reversesort table new_table app].
  change (index_of _ _) with (Some 1).
  assert (Hrev : match entries1 with [] => false | _ :: _ => true end
                 = match entries2 with [] => false | _ :: _ => true end).
  { destruct entries1, entries2; try done.
    - by apply Permutation_nil_cons in Hp.
    - symmetry in Hp. by apply Permutation_nil_cons in Hp. }
  rewrite Hrev. do 3 f_equal. apply py_sort_unique.
  - by do 2 apply Permutation_map.
  - intros x y (rx & <- & (ex & <- & _)%in_map_iff)%in_map_iff
                (ry & <- & (ey & <- & _)%in_map_iff)%in_map_iff.
    destruct ex as [n1 u1], ey as [n2 u2]. cbn.
    destruct (Z.compare_spec u1 u2) as [->| |]; try done.
    destruct (String.compare n1 n2) eqn:Hn; try done.
    apply String.compare_eq_iff in Hn as ->. done.
Qed.

Lemma Sorted_map_inv {A B : Type} (R : relation B) (f : A -> B) (l : list A) :
  Sorted R (map f l) -> Sorted (fun a b => R (f a) (f b)) l.
Proof.
  induction l as [|x l IH]; cbn [map]; intros Hs; [constructor|].
  inversion Hs as [|? ? Hs' Hhd]; subst. constructor; [by apply IH|].
  destruct l; cbn [map] in Hhd; [constructor|].
  inversion Hhd; subst. by constructor.
Qed.

(** The calls of [meraki_rick_roll]: one post to Tropo, then - when Tropo
    answered - one message to the room. *)
Lemma rick_roll_trace (cfg : Config) (W : World) (number : string) (room_id : json)
    (tr : trace) :
  snd (meraki_rick_roll cfg W number room_id tr)
  = tr ++ TropoPost (tropo_voice_token cfg) number ::
          match tropo_post W (tropo_voice_token cfg) number with
          | Ok status =>
              [SparkPost room_id
                 (Plain (if (status =? 200)%Z then "Success" else "Something went wrong"))]
          | Raise _ => []
          end.
Proof.
  unfold meraki_rick_roll, bind, call.
  destruct (tropo_post W (tropo_voice_token cfg) number) as [status|e]; [|done].
  destruct (status =? 200)%Z; unfold post_to_spark, bind, call, ret;
    destruct (spark_post W room_id _); cbn [snd]; by rewrite <- app_assoc.
Qed.

(** ** The handlers that print a table *)

Lemma add_rows_fold {A : Type} (f : A -> table_row) (l : list A) (t : PrettyTable) :
  fold_left (fun table row => add_row (f row) table) l t
  = {| field_names := field_names t;
       rows := rows t ++ map f l;
       reversesort := reversesort t |}.
Proof.
  revert t. induction l as [|x l IH]; intros t; cbn [fold_left map].
  - rewrite app_nil_r. by destruct t.
  - rewrite IH. cbn. by rewrite <- app_assoc.
Qed.

Lemma fold_left_concat_map {A B S : Type} (f : S -> B -> S) (g : A -> list B)
    (l : list A) (s : S) :
  fold_left (fun st x => fold_left f (g x) st) l s = fold_left f (concat (map g l)) s.
Proof.
  revert s. induction l as [|x l IH]; intros s; [done|].
  cbn [fold_left map concat]. by rewrite IH, fold_left_app.
Qed.

Lemma fold_left_counting {A St : Type} (h : A -> St -> St) (l : list A) (n : nat) (s : St) :
  fold_left (fun (st : nat * St) x => (S (fst st), h x (snd st))) l (n, s)
  = (n + length l, fold_left (fun st x => h x st) l s).
Proof.
  revert n s. induction l as [|x l IH]; intros n s; cbn [fold_left length].
  - by rewrite Nat.add_0_r.
  - cbn [fst snd]. rewrite IH. f_equal. lia.
Qed.

Lemma cell_le_str (a b : string) : cell_le (CStr a) (CStr b) -> String.le a b.
Proof.
  unfold cell_le, String.le, String.leb. cbn [cell_compare].
  by destruct (String.compare a b).
Qed.

Lemma cell_le_int (a b : Z) : cell_le (CInt a) (CInt b) -> (a <= b)%Z.
Proof. intros H. exact H. Qed.

Lemma Sorted_impl {A : Type} (R R' : relation A) (l : list A) :
  (forall x y, R x y -> R' x y) -> Sorted R l -> Sorted R' l.
Proof.
  intros Himp. induction 1 as [|x l Hs IH Hhd]; constructor; [done|].
  destruct Hhd; constructor; auto.
Qed.

(** * The claims *)

(** ** C1: the subnet filter of the guest-clients handler *)

(** On the addresses of a client record - dotted decimal - the pattern
    [10.4.17] and the text [10.4.17] select the same records: a dot of the
    pattern can only stand for a dot. *)
Lemma subnet_match_dotted (r : ClientRecord) :
  dotted_decimal (ip r) = true ->
  subnet_match r = PyStr.containsb "10.4.17" (ip r).
Proof.
  intros Hdd. apply eq_true_iff_eq. split.
  - intros Hm. apply containsb_spec. by apply subnet_search_dotted.
  - intros Hc%containsb_spec. by apply contains_search.
Qed.

Lemma filter_subnet_dotted (result : list ClientRecord) :
  Forall (fun r => dotted_decimal (ip r) = true) result ->
  List.filter subnet_match result
  = List.filter (fun r => PyStr.containsb "10.4.17" (ip r)) result.
Proof.
  induction 1 as [|r result Hr _ IH]; cbn [List.filter]; [done|].
  by rewrite (subnet_match_dotted r Hr), IH.
Qed.

(** C1.  For every sequence of client records, whose IP addresses are in
    dotted-decimal form, the inner loop of [spark_get_guest_clients_cmd]
    keeps and counts, in order, exactly the records whose IP literally
    contains the text [10.4.17] as a contiguous substring - textual
    containment, no CIDR arithmetic: [110.4.17.9] is kept.  Every other
    record is left out. *)
Theorem guest_subnet_filter (result : list ClientRecord) (n : nat) (t : PrettyTable) :
  Forall (fun r => dotted_decimal (ip r) = true) result ->
  exists kept,
    guest_client_rows result (n, t)
    = (n + length kept,
       {| field_names := field_names t;
          rows := rows t ++ map client_row kept;
          reversesort := reversesort t |}) /\
    kept = List.filter (fun r => PyStr.containsb "10.4.17" (ip r)) result /\
    (forall r, In r kept <-> In r result /\ PyStr.contains "10.4.17" (ip r)).
Proof.
  intros Hdd. eexists. split; [|split; [reflexivity|]].
  - rewrite <- (filter_subnet_dotted result Hdd). apply guest_client_rows_filter.
  - intros r. rewrite filter_In. by rewrite containsb_spec.
Qed.

Lemma guest_subnet_filter_witness :
  exists kept,
    guest_client_rows
      [client "phone" "10.4.17.20" 1 1; client "laptop" "110.4.17.9" 2 2;
       client "printer" "192.168.1.7" 3 3]
      (0, new_table ["Description"; "IP"; "MAC"])
    = (0 + length kept,
       {| field_names := ["Description"; "IP"; "MAC"];
          rows := [] ++ map client_row kept;
          reversesort := false |}) /\
    kept = [client "phone" "10.4.17.20" 1 1; client "laptop" "110.4.17.9" 2 2] /\
    (forall r, In r kept
               <-> In r [client "phone" "10.4.17.20" 1 1; client "laptop" "110.4.17.9" 2 2;
                         client "printer" "192.168.1.7" 3 3]
                   /\ PyStr.contains "10.4.17" (ip r)).
Proof.
  apply (guest_subnet_filter
           [client "phone" "10.4.17.20" 1 1; client "laptop" "110.4.17.9" 2 2;
            client "printer" "192.168.1.7" 3 3]
           0 (new_table ["Description"; "IP"; "MAC"])).
  repeat constructor.
Defined.

(** The hypothesis is used.  The program searches for the regular
    expression [10.4.17], whose dots match any character: a value that is
    no dotted-decimal address, such as [fe80::10:4:17], is kept without
    containing the text. *)
Lemma subnet_filter_not_literal :
  let r := client "tablet" "fe80::10:4:17" 0 0 in
  let t := new_table ["Description"; "IP"; "MAC"] in
  guest_client_rows [r] (0, t) = (1, add_row (client_row r) t) /\
  dotted_decimal (ip r) = false /\
  ~ PyStr.contains "10.4.17" (ip r).
Proof.
  split; [reflexivity|]. split; [reflexivity|].
  intros H%containsb_spec. vm_compute in H. discriminate.
Qed.

(** ** C5: the guest filter on devices *)

(** What [get_guest_ap_list] computes on a list of device records: in
    order, the serials of the records whose model begins with [MR] and
    whose tag string contains the text [guest_wireless].  A record lacking
    either is left out, and every access point that has the marker among
    its tags is returned. *)
Lemma guest_filter_substring (devs : list DeviceRecord) :
  guest_ap_rows (map RowDevice devs) []
  = Ok (Serials (map serial (List.filter is_guest_ap devs))) /\
  (forall d, is_guest_ap d = true <->
             PyStr.slice_to 2 (model d) = "MR" /\ PyStr.contains "guest_wireless" (tags d)) /\
  (forall d, PyStr.slice_to 2 (model d) = "MR" ->
             In "guest_wireless" (tag_set (tags d)) -> is_guest_ap d = true).
Proof.
  split; [apply guest_ap_rows_devices|].
  assert (Hspec : forall d, is_guest_ap d = true <->
             PyStr.slice_to 2 (model d) = "MR" /\ PyStr.contains "guest_wireless" (tags d)).
  { intros d. unfold is_guest_ap.
    by rewrite andb_true_iff, String.eqb_eq, containsb_spec. }
  split; [exact Hspec|].
  intros d Hm Hin. apply Hspec. split; [done|]. by apply tag_set_contains.
Qed.

(** C5.  The claim is what the docstring of [get_guest_ap_list] promises
    ("MR's with the 'guest_wireless' device tag"), and the code misses it:
    the tag test is a search for the text [guest_wireless] in the tag
    string.  An access point whose only tag is [guest_wireless_lobby] does
    not have the marker among its tags, and its serial is returned. *)
Theorem guest_filter_not_membership :
  let d := {| model := "MR33"; serial := "Q2-AP9"; tags := " guest_wireless_lobby " |} in
  tag_set (tags d) = ["guest_wireless_lobby"] /\
  ~ In "guest_wireless" (tag_set (tags d)) /\
  guest_ap_rows [RowDevice d] [] = Ok (Serials ["Q2-AP9"]).
Proof.
  split; [reflexivity|]. split; [|reflexivity].
  vm_compute. intros [H|[]]. discriminate.
Qed.

(** ** C6: usage aggregation *)

(** C6.  The mapping from normalized client name to total usage does not
    depend on the order of the records: the concatenation of two sequences
    gives the same mapping in either order, and so does any rearrangement.
    A sequence in which every record appears twice gives every client twice
    its total.  The keys are the normalized names of the specification -
    the description in lower case, spaces and periods replaced by
    underscores - and the total of a key is the sum over all records with
    that normalized name, so records with colliding names merge: two of
    them give one entry, with the sum of both. *)
Theorem usage_aggregation_order_independent (W : World) :
  (forall A B : list ClientRecord, aggregate W (A ++ B) = aggregate W (B ++ A)) /\
  (forall l1 l2 : list ClientRecord,
      Permutation l1 l2 -> aggregate W l1 = aggregate W l2) /\
  (forall (l l2 : list ClientRecord) (k : string),
      Permutation l2 (l ++ l) ->
      aggregate W l2 !! k = Z.mul 2 <$> aggregate W l !! k) /\
  (forall (l : list ClientRecord) (k : string),
      aggregate W l !! k
      = if existsb (fun r => String.eqb (normalized_name W (description r)) k) l
        then Some (usage_total W k l) else None) /\
  (forall r1 r2 : ClientRecord,
      normalized_name W (description r1) = normalized_name W (description r2) ->
      aggregate W [r1; r2]
      = {[ normalized_name W (description r1)
           := (sent r1 + recv r1 + (sent r2 + recv r2))%Z ]}).
Proof.
  split; [|split; [|split; [|split]]].
  - intros A B. apply aggregate_perm, Permutation_app_comm.
  - apply aggregate_perm.
  - intros l l2 k Hp. rewrite (aggregate_perm _ _ _ Hp), !lookup_aggregate.
    rewrite has_key_app, usage_total_app, orb_diag.
    destruct (has_key W k l); cbn; [|done]. f_equal. lia.
  - apply lookup_aggregate.
  - intros r1 r2 Hkey. apply map_eq. intros k. rewrite lookup_aggregate.
    unfold has_key, client_key. cbn [existsb usage_total]. unfold client_key, traf_sum.
    rewrite <- Hkey.
    destruct (String.eqb_spec (normalized_name W (description r1)) k) as [->|Hne]; cbn.
    + rewrite lookup_singleton_eq. f_equal. lia.
    + by rewrite lookup_singleton_ne.
Qed.

Lemma usage_aggregation_witness :
  let W := demo_world "Meraki get top talkers" (Ok []) demo_networks demo_devices
                      demo_clients 200 in
  let a := client "Ann's Phone" "10.4.17.20" 10 5 in
  let b := client "ann's.phone" "110.4.17.9" 100 50 in
  let c := client "printer" "192.168.1.7" 1 2 in
  aggregate W [a; b; c; c; b; a] !! "ann's_phone" = Some 330%Z /\
  aggregate W [a; b; c; c; b; a] !! "printer" = Some 6%Z /\
  aggregate W [a; b; c; c; b; a] !! "Ann's Phone" = None.
Proof.
  cbn zeta.
  pose proof (usage_aggregation_order_independent
                (demo_world "Meraki get top talkers" (Ok []) demo_networks demo_devices
                            demo_clients 200)) as (_ & _ & Hdouble & Hlookup & _).
  assert (Permutation
            [client "Ann's Phone" "10.4.17.20" 10 5; client "ann's.phone" "110.4.17.9" 100 50;
             client "printer" "192.168.1.7" 1 2; client "printer" "192.168.1.7" 1 2;
             client "ann's.phone" "110.4.17.9" 100 50; client "Ann's Phone" "10.4.17.20" 10 5]
            ([client "Ann's Phone" "10.4.17.20" 10 5; client "ann's.phone" "110.4.17.9" 100 50;
              client "printer" "192.168.1.7" 1 2]
             ++ [client "Ann's Phone" "10.4.17.20" 10 5; client "ann's.phone" "110.4.17.9" 100 50;
                 client "printer" "192.168.1.7" 1 2])) as Hp.
  { cbn [app]. do 3 apply perm_skip.
    apply (Permutation_sym
             (Permutation_rev
                [client "Ann's Phone" "10.4.17.20" 10 5;
                 client "ann's.phone" "110.4.17.9" 100 50;
                 client "printer" "192.168.1.7" 1 2])). }
  repeat split; rewrite (Hdouble _ _ _ Hp), Hlookup; reflexivity.
Defined.

(** ** C2: the rick-roll command of the dispatcher *)

(** Any text that begins with [Meraki rick roll ] is dispatched to
    [meraki_rick_roll] with the rest of the text, whatever the rest is. *)
Lemma dispatch_rick_roll_prefix (cfg : Config) (W : World) (rest : string) (room_id : json) :
  dispatch cfg W (JStr ("Meraki rick roll " +:+ rest)) room_id
  = meraki_rick_roll cfg W rest room_id.
Proof.
  unfold dispatch.
  repeat match goal with
         | |- context [eq_str ?v ?lit] => change (eq_str v lit) with false
         end.
  cbv iota. cbn [py_str]. unfold PyStr.startswith.
  rewrite prefix_app, split1_prefix. reflexivity.
Qed.

(** C2.  With the argument [5551234567] the dispatcher calls the rick-roll
    handler with that argument.  With an empty remainder it does not reach
    the error handler: the number is the empty string, which is not [None],
    so the rick-roll handler runs with the empty number, Tropo is called
    with it, and "Please enter a valid command" is not posted. *)
Theorem dispatch_rick_roll (cfg : Config) (W : World) (room_id : json) (tr : trace) :
  dispatch cfg W (JStr "Meraki rick roll 5551234567") room_id tr
  = meraki_rick_roll cfg W "5551234567" room_id tr /\
  dispatch cfg W (JStr "Meraki rick roll ") room_id tr
  = meraki_rick_roll cfg W "" room_id tr /\
  (exists tr', snd (dispatch cfg W (JStr "Meraki rick roll ") room_id tr)
               = tr ++ TropoPost (tropo_voice_token cfg) "" :: tr') /\
  ~ In (SparkPost room_id (Plain "Please enter a valid command"))
       (skipn (length tr) (snd (dispatch cfg W (JStr "Meraki rick roll ") room_id tr))).
Proof.
  split; [reflexivity|]. split; [reflexivity|].
  change (dispatch cfg W (JStr "Meraki rick roll ") room_id tr)
    with (meraki_rick_roll cfg W "" room_id tr).
  rewrite rick_roll_trace. split; [by eexists|].
  rewrite drop_app_length.
  destruct (tropo_post W (tropo_voice_token cfg) "") as [status|e].
  - destruct (status =? 200)%Z; intros [H|[H|[]]]; discriminate.
  - intros [H|[]]; discriminate.
Qed.

(** ** C3: failures of a command handler *)

(** C3, as stated, fails: nothing in [lambda_handler] catches an exception.
    When the inventory call fails, the invocation fails with that
    exception and nothing is posted to the room. *)
Lemma handler_failure_propagates :
  let W := demo_world "Meraki get inventory" (Raise RequestError)
                      demo_networks demo_devices demo_clients 200 in
  (exists data, subscript demo_event "data" = Ok data /\
                subscript data "roomId" = Ok demo_room) /\
  lambda_handler demo_cfg W demo_event []
  = (Raise RequestError, [SparkGet (JStr "msg-1"); GetOrgInventory "key" "org"]) /\
  existsb is_spark_post (snd (lambda_handler demo_cfg W demo_event [])) = false.
Proof. split; [eexists; split; reflexivity|]. split; reflexivity. Qed.

(** What [lambda_handler] does once the two identifiers and the text of
    the message are there: it runs the dispatcher and returns ["Finished"]
    when the dispatcher returns. *)
Lemma lambda_handler_run (cfg : Config) (W : World) (event data msg_id room_id t t_text : json)
    (tr : trace) :
  subscript event "data" = Ok data ->
  subscript data "id" = Ok msg_id ->
  subscript data "roomId" = Ok room_id ->
  spark_get W msg_id = Ok t ->
  subscript t "text" = Ok t_text ->
  lambda_handler cfg W event tr
  = match dispatch cfg W t_text room_id (tr ++ [SparkGet msg_id]) with
    | (Ok _, tr') => (Ok "Finished", tr')
    | (Raise e, tr') => (Raise e, tr')
    end.
Proof.
  intros Hd Hi Hr Hg Ht. unfold lambda_handler, bind, lift, call, ret.
  by rewrite Hd, Hi, Hr, Hg, Ht.
Qed.

(** C3, amended.  For an event from which the message id and the room id
    were extracted and whose message text was fetched, a failure raised by
    the command handler is not caught: [lambda_handler] fails with the same
    exception, and the calls made are those made up to the failure, so
    nothing is posted to the room for it.  When the handler returns, the
    entry point returns ["Finished"]. *)
Theorem lambda_handler_propagates (cfg : Config) (W : World)
    (event data msg_id room_id t t_text : json) (tr : trace) :
  subscript event "data" = Ok data ->
  subscript data "id" = Ok msg_id ->
  subscript data "roomId" = Ok room_id ->
  spark_get W msg_id = Ok t ->
  subscript t "text" = Ok t_text ->
  (forall e tr',
      dispatch cfg W t_text room_id (tr ++ [SparkGet msg_id]) = (Raise e, tr') ->
      lambda_handler cfg W event tr = (Raise e, tr')) /\
  (forall u tr',
      dispatch cfg W t_text room_id (tr ++ [SparkGet msg_id]) = (Ok u, tr') ->
      lambda_handler cfg W event tr = (Ok "Finished", tr')).
Proof.
  intros Hd Hi Hr Hg Ht.
  rewrite (lambda_handler_run cfg W event data msg_id room_id t t_text tr) by done.
  split; intros ? tr' Hrun; by rewrite Hrun.
Qed.

Lemma lambda_handler_propagates_witness :
  lambda_handler demo_cfg
    (demo_world "Meraki get inventory" (Raise RequestError)
                demo_networks demo_devices demo_clients 200)
    demo_event []
  = (Raise RequestError, [SparkGet (JStr "msg-1"); GetOrgInventory "key" "org"]).
Proof.
  apply (proj1 (lambda_handler_propagates demo_cfg
           (demo_world "Meraki get inventory" (Raise RequestError)
                       demo_networks demo_devices demo_clients 200)
           demo_event
           (JObj [("id", JStr "msg-1"); ("roomId", JStr "room-1")])
           (JStr "msg-1") (JStr "room-1")
           (JObj [("text", JStr "Meraki get inventory")])
           (JStr "Meraki get inventory") []
           eq_refl eq_refl eq_refl eq_refl eq_refl)).
  reflexivity.
Defined.

(** ** C4: the answer of Tropo *)

(** C4, as stated, fails: the test is [status_code == 200].  On the answer
    201, a 2xx status, the handler posts "Something went wrong". *)
Lemma rick_roll_201_is_failure :
  let W := demo_world "Meraki rick roll 5551234567" (Ok [])
                      demo_networks demo_devices demo_clients 201 in
  ((200 <= 201)%Z /\ (201 <= 299)%Z) /\
  meraki_rick_roll demo_cfg W "5551234567" demo_room []
  = (Ok tt, [TropoPost "token" "5551234567";
             SparkPost demo_room (Plain "Something went wrong")]).
Proof. split; [lia|reflexivity]. Qed.

(** C4, amended.  When Tropo answers with a status code, the rick-roll
    handler has called Tropo once and then posts one message to the room:
    "Success" if and only if the status is exactly 200, and "Something went
    wrong" for every other status. *)
Theorem rick_roll_success_iff_200 (cfg : Config) (W : World) (number : string)
    (room_id : json) (status : Z) (tr : trace) :
  tropo_post W (tropo_voice_token cfg) number = Ok status ->
  exists msg,
    snd (meraki_rick_roll cfg W number room_id tr)
    = tr ++ [TropoPost (tropo_voice_token cfg) number; SparkPost room_id (Plain msg)] /\
    (msg = "Success" <-> status = 200%Z) /\
    (msg = "Something went wrong" <-> status <> 200%Z).
Proof.
  intros Hs. rewrite rick_roll_trace, Hs.
  destruct (Z.eqb_spec status 200) as [->|Hne]; eexists; (split; [reflexivity|]).
  - intuition congruence.
  - intuition congruence.
Qed.

Lemma rick_roll_success_iff_200_witness :
  exists msg,
    snd (meraki_rick_roll demo_cfg
           (demo_world "Meraki rick roll 5551234567" (Ok [])
                       demo_networks demo_devices demo_clients 204)
           "5551234567" demo_room [])
    = [] ++ [TropoPost "token" "5551234567"; SparkPost demo_room (Plain msg)] /\
    (msg = "Success" <-> 204%Z = 200%Z) /\
    (msg = "Something went wrong" <-> 204%Z <> 200%Z).
Proof.
  apply (rick_roll_success_iff_200 demo_cfg
           (demo_world "Meraki rick roll 5551234567" (Ok [])
                       demo_networks demo_devices demo_clients 204)
           "5551234567" demo_room 204 []).
  reflexivity.
Defined.

(** ** C7: an event without [data.id] *)

(** C7, as stated, fails on the kind of the failure: the source defines no
    [MalformedEventError]; the missing key raises Python's [KeyError]. *)
Lemma missing_id_is_key_error :
  let W := demo_world "Meraki get ?" (Ok []) demo_networks demo_devices demo_clients 200 in
  let event := JObj [("data", JObj [("roomId", JStr "room-1")])] in
  lambda_handler demo_cfg W event [] = (Raise (KeyError "id"), []).
Proof. reflexivity. Qed.

(** C7, amended.  For every event that lacks [data.id] - [event['data']]
    or [event['data']['id']] fails - the entry point fails with that
    failure, a [KeyError] for the missing key or a [TypeError] when the
    value subscripted is not a dictionary, and it has made no remote call
    before failing. *)
Theorem lambda_handler_missing_id (cfg : Config) (W : World) (event : json)
    (e : exn) (tr : trace) :
  data_id event = Raise e ->
  lambda_handler cfg W event tr = (Raise e, tr) /\
  (e = KeyError "data" \/ e = KeyError "id" \/ e = TypeError).
Proof.
  unfold data_id, lambda_handler, bind, lift. intros H.
  destruct (subscript event "data") as [data|e'] eqn:Hd.
  - rewrite H. split; [done|].
    unfold subscript in H. destruct data; try (injection H as <-; auto).
    destruct (assoc "id" fields); [discriminate|]. injection H as <-. auto.
  - injection H as ->. split; [done|].
    unfold subscript in Hd. destruct event; try (injection Hd as <-; auto).
    destruct (assoc "data" fields); [discriminate|]. injection Hd as <-. auto.
Qed.

Lemma lambda_handler_missing_id_witness :
  lambda_handler demo_cfg
    (demo_world "Meraki get ?" (Ok []) demo_networks demo_devices demo_clients 200)
    (JObj [("data", JStr "msg-1")]) []
  = (Raise TypeError, []).
Proof.
  apply (lambda_handler_missing_id demo_cfg
           (demo_world "Meraki get ?" (Ok []) demo_networks demo_devices demo_clients 200)
           (JObj [("data", JStr "msg-1")]) TypeError []).
  reflexivity.
Defined.

(** ** C8: the table of networks *)

(** C8.  For every list of networks the dashboard returns, the
    get-networks handler makes one post to the room: one table with the
    three columns of the source (network id, name - headed "Network Name"
    - and tags), whose rows are the networks in ascending order of their
    names. *)
Theorem get_networks_sorted_table (W : World) (api_key org_id : string)
    (room_id : json) (nets : list NetworkRecord) (tr : trace) :
  getnetworklist W api_key org_id = Ok nets ->
  exists sorted_nets,
    snd (spark_get_networks_cmd W api_key org_id room_id tr)
    = tr ++ [GetNetworkList api_key org_id;
             SparkPost room_id
               (Rendered ["Network ID"; "Network Name"; "Tags"]
                         (map network_row sorted_nets))] /\
    Permutation nets sorted_nets /\
    StronglySorted (fun a b => String.le (nw_name a) (nw_name b)) sorted_nets.
Proof.
  intros Hnets. unfold spark_get_networks_cmd, bind, call. rewrite Hnets.
  rewrite (add_rows_fold network_row).
  set (table := {| field_names := _; rows := _; reversesort := _ |}).
  destruct (get_string_sortby_sorted "Network Name" table 1 eq_refl)
    as (body & -> & Hperm & Hsorted).
  cbn [rows field_names reversesort table new_table app] in Hperm, Hsorted |- *.
  apply Permutation_map_inv in Hperm as (sorted_nets & -> & Hperm).
  exists sorted_nets. split; [|split; [done|]].
  - unfold lift, post_to_spark, call, ret.
    destruct (spark_post W room_id _); cbn [snd]; by rewrite <- app_assoc.
  - apply Sorted.Sorted_StronglySorted.
    + intros a b c Hab Hbc. by etrans.
    + apply Sorted_map_inv in Hsorted.
      eapply Sorted_impl; [|exact Hsorted].
      intros a b Hab. by apply cell_le_str in Hab.
Qed.

Lemma get_networks_sorted_table_witness :
  exists sorted_nets,
    snd (spark_get_networks_cmd
           (demo_world "Meraki get networks" (Ok []) demo_networks demo_devices
                       demo_clients 200)
           "key" "org" demo_room [])
    = [] ++ [GetNetworkList "key" "org";
             SparkPost demo_room
               (Rendered ["Network ID"; "Network Name"; "Tags"]
                         (map network_row sorted_nets))] /\
    Permutation demo_networks sorted_nets /\
    StronglySorted (fun a b => String.le (nw_name a) (nw_name b)) sorted_nets.
Proof.
  apply (get_networks_sorted_table
           (demo_world "Meraki get networks" (Ok []) demo_networks demo_devices
                       demo_clients 200)
           "key" "org" demo_room demo_networks []).
  reflexivity.
Defined.

(** ** The handlers that fetch the clients of every access point *)

Lemma top_talkers_run (W : World) (api_key net_id : string) (room_id : json)
    (result : list device_row) (sn_list : ap_list)
    (clients : string -> list ClientRecord) (tr : trace) :
  getnetworkdevices W api_key net_id = Ok result ->
  ap_rows result [] = Ok sn_list ->
  (forall sn, In sn (iterate sn_list) -> getclients W api_key sn 3600 = Ok (clients sn)) ->
  exists body,
    spark_get_top_talkers_cmd W api_key net_id room_id tr
    = (match spark_post W room_id (Rendered ["Client"; "Usage - kbytes past hour"] body) with
       | Ok _ => Ok tt
       | Raise e => Raise e
       end,
       tr ++ GetNetworkDevices api_key net_id
          :: map (fun sn => GetClients api_key sn 3600) (iterate sn_list)
          ++ [SparkPost room_id (Rendered ["Client"; "Usage - kbytes past hour"] body)]) /\
    let entries := map_to_list (aggregate W (concat (map clients (iterate sn_list)))) in
    Permutation body (map usage_row entries) /\
    Sorted (sorted_by 1 (match entries with [] => false | _ :: _ => true end)) body.
Proof.
  intros Hdev Hap Hcl.
  unfold spark_get_top_talkers_cmd, get_ap_list, bind, call, lift.
  rewrite Hdev, Hap.
  rewrite (for_each_calls (iterate sn_list) _
             (fun sn ct => aggregate_rows W (clients sn) ct)
             (fun sn => GetClients api_key sn 3600)).
  2:{ intros sn st tr' Hin. unfold bind, call, ret. by rewrite (Hcl sn Hin). }
  unfold aggregate_rows at 1. rewrite (fold_left_concat_map (add_usage W) clients).
  fold (aggregate_rows W (concat (map clients (iterate sn_list))) ∅).
  fold (aggregate W (concat (map clients (iterate sn_list)))).
  unfold usage_rows. rewrite usage_rows_fold.
  set (entries := map_to_list _).
  set (table := {| field_names := _; rows := _; reversesort := _ |}).
  destruct (get_string_sortby_sorted "Usage - kbytes past hour" table 1 eq_refl)
    as (body & -> & Hperm & Hsorted).
  exists body. split; [|done].
  unfold post_to_spark, call, ret. cbn [field_names table new_table].
  destruct (spark_post W room_id _); by rewrite <- !app_assoc.
Qed.

Lemma guest_clients_run (cfg : Config) (W : World) (api_key net_id : string)
    (room_id : json) (result : list device_row) (sn_list : ap_list)
    (clients : string -> list ClientRecord) (tr : trace) :
  getnetworkdevices W api_key net_id = Ok result ->
  guest_ap_rows result [] = Ok sn_list ->
  (forall sn, In sn (iterate sn_list) ->
              getclients W (my_api_key cfg) sn 900 = Ok (clients sn)) ->
  (forall body, exists status, spark_post W room_id body = Ok status) ->
  let kept := List.filter subnet_match (concat (map clients (iterate sn_list))) in
  spark_get_guest_clients_cmd cfg W api_key net_id room_id tr
  = (Ok tt,
     tr ++ GetNetworkDevices api_key net_id
        :: map (fun sn => GetClients (my_api_key cfg) sn 900) (iterate sn_list)
        ++ [SparkPost room_id
              (Plain ("There are " +:+ PyStr.of_nat (length kept)
                      +:+ " users on the guest wireless network"));
            SparkPost room_id
              (Rendered ["Description"; "IP"; "MAC"] (map client_row kept))]).
Proof.
  intros Hdev Hap Hcl Hpost kept.
  unfold spark_get_guest_clients_cmd, get_guest_ap_list, bind, call, lift.
  rewrite Hdev, Hap.
  rewrite (for_each_calls (iterate sn_list) _
             (fun sn st => guest_client_rows (clients sn) st)
             (fun sn => GetClients (my_api_key cfg) sn 900)).
  2:{ intros sn st tr' Hin. unfold bind, call, ret. by rewrite (Hcl sn Hin). }
  unfold guest_client_rows at 1.
  rewrite (fold_left_concat_map guest_client_step clients).
  fold (guest_client_rows (concat (map clients (iterate sn_list)))
                          (0, new_table ["Description"; "IP"; "MAC"])).
  rewrite guest_client_rows_filter. fold kept.
  cbn [new_table field_names rows reversesort app Nat.add].
  unfold post_to_spark, call, ret, table_str. cbn [field_names rows].
  destruct (Hpost (Plain ("There are " +:+ PyStr.of_nat (length kept)
                          +:+ " users on the guest wireless network"))) as [s1 ->].
  destruct (Hpost (Rendered ["Description"; "IP"; "MAC"] (map client_row kept))) as [s2 ->].
  by rewrite <- !app_assoc.
Qed.

Lemma mr_clients_run (cfg : Config) (W : World) (api_key net_id : string)
    (room_id : json) (result : list device_row) (sn_list : ap_list)
    (clients : string -> list ClientRecord) (tr : trace) :
  getnetworkdevices W api_key net_id = Ok result ->
  ap_rows result [] = Ok sn_list ->
  (forall sn, In sn (iterate sn_list) ->
              getclients W (my_api_key cfg) sn 900 = Ok (clients sn)) ->
  (forall body, exists status, spark_post W room_id body = Ok status) ->
  let found := concat (map clients (iterate sn_list)) in
  spark_get_mr_clients_cmd cfg W api_key net_id room_id tr
  = (Ok tt,
     tr ++ GetNetworkDevices api_key net_id
        :: map (fun sn => GetClients (my_api_key cfg) sn 900) (iterate sn_list)
        ++ [SparkPost room_id
              (Plain ("There are " +:+ PyStr.of_nat (length found)
                      +:+ " users on the wireless network across "
                      +:+ PyStr.of_nat (length (iterate sn_list)) +:+ " MR devices"));
            SparkPost room_id
              (Rendered ["Description"; "IP"; "MAC"] (map client_row found))]).
Proof.
  intros Hdev Hap Hcl Hpost found.
  unfold spark_get_mr_clients_cmd, get_ap_list, bind, call, lift.
  rewrite Hdev, Hap.
  rewrite (for_each_calls (iterate sn_list) _
             (fun sn (st : nat * (nat * PrettyTable)) =>
                (S (fst st), mr_client_rows (clients sn) (snd st)))
             (fun sn => GetClients (my_api_key cfg) sn 900)).
  2:{ intros sn [mr_count inner] tr' Hin. unfold bind, call, ret.
      by rewrite (Hcl sn Hin). }
  rewrite (fold_left_counting (fun sn st => mr_client_rows (clients sn) st)).
  unfold mr_client_rows at 1.
  rewrite (fold_left_concat_map mr_client_step clients).
  fold (mr_client_rows (concat (map clients (iterate sn_list)))
                       (0, new_table ["Description"; "IP"; "MAC"])).
  rewrite mr_client_rows_all. fold found.
  cbn [new_table field_names rows reversesort app Nat.add].
  unfold post_to_spark, call, ret, table_str. cbn [field_names rows].
  destruct (Hpost (Plain ("There are " +:+ PyStr.of_nat (length found)
                          +:+ " users on the wireless network across "
                          +:+ PyStr.of_nat (length (iterate sn_list))
                          +:+ " MR devices"))) as [s1 ->].
  destruct (Hpost (Rendered ["Description"; "IP"; "MAC"] (map client_row found))) as [s2 ->].
  by rewrite <- !app_assoc.
Qed.

(** ** C9: the table of top talkers *)

(** C9.  Whatever the clients fetched, the top-talkers handler asks for the
    clients of every access point with the time window 3600 and then makes
    one post: one table with the two columns of the source (client, and
    usage - headed "Usage - kbytes past hour").  Its rows are the entries
    of the aggregation by normalized name: there is one row for each
    normalized name - the description in lower case, spaces and periods
    replaced by underscores - that a fetched record has, no name has two
    rows, and the usage of a row is the sum of sent and received over all
    fetched records with that name.  The rows stand in descending order of
    usage. *)
Theorem top_talkers_table (W : World) (api_key net_id : string) (room_id : json)
    (result : list device_row) (sn_list : ap_list)
    (clients : string -> list ClientRecord) (tr : trace) :
  getnetworkdevices W api_key net_id = Ok result ->
  ap_rows result [] = Ok sn_list ->
  (forall sn, In sn (iterate sn_list) -> getclients W api_key sn 3600 = Ok (clients sn)) ->
  exists entries,
    snd (spark_get_top_talkers_cmd W api_key net_id room_id tr)
    = tr ++ GetNetworkDevices api_key net_id
         :: map (fun sn => GetClients api_key sn 3600) (iterate sn_list)
         ++ [SparkPost room_id
               (Rendered ["Client"; "Usage - kbytes past hour"] (map usage_row entries))] /\
    NoDup (map fst entries) /\
    (forall (k : string) (v : Z),
        In (k, v) entries
        <-> (exists r, In r (concat (map clients (iterate sn_list))) /\
                       normalized_name W (description r) = k) /\
            v = usage_total W k (concat (map clients (iterate sn_list)))) /\
    StronglySorted (fun a b => (snd b <= snd a)%Z) entries.
Proof.
  intros Hdev Hap Hcl.
  destruct (top_talkers_run W api_key net_id room_id result sn_list clients tr
              Hdev Hap Hcl) as (body & Htr & Hperm & Hsorted).
  apply Permutation_map_inv in Hperm as (entries & -> & Hperm).
  symmetry in Hperm.
  destruct (aggregate_entries W _ entries Hperm) as [Hnodup Hin].
  exists entries. split; [by rewrite Htr|]. split; [done|]. split.
  - intros k v. rewrite Hin. unfold has_key. rewrite existsb_exists.
    split; intros [(r & Hr & Hk) ->]; (split; [|done]); exists r; (split; [done|]).
    + by apply String.eqb_eq in Hk.
    + by apply String.eqb_eq.
  - destruct (map_to_list _) as [|e0 es].
    + apply Permutation_sym, Permutation_nil in Hperm as ->. constructor.
    + apply Sorted.Sorted_StronglySorted.
      * intros a b c Hab Hbc. lia.
      * apply Sorted_map_inv in Hsorted.
        eapply Sorted_impl; [|exact Hsorted].
        intros a b Hab. by apply cell_le_int in Hab.
Qed.

Lemma top_talkers_table_witness :
  exists entries,
    snd (spark_get_top_talkers_cmd
           (demo_world "Meraki get top talkers" (Ok []) demo_networks demo_devices
                       demo_clients 200)
           "key" "net" demo_room [])
    = [] ++ GetNetworkDevices "key" "net"
         :: map (fun sn => GetClients "key" sn 3600) ["Q2-AP1"; "Q2-AP2"]
         ++ [SparkPost demo_room
               (Rendered ["Client"; "Usage - kbytes past hour"] (map usage_row entries))] /\
    NoDup (map fst entries) /\
    (forall (k : string) (v : Z),
        In (k, v) entries
        <-> (exists r, In r (concat (map demo_clients ["Q2-AP1"; "Q2-AP2"])) /\
                       normalized_name
                         (demo_world "Meraki get top talkers" (Ok []) demo_networks
                                     demo_devices demo_clients 200)
                         (description r) = k) /\
            v = usage_total
                  (demo_world "Meraki get top talkers" (Ok []) demo_networks
                              demo_devices demo_clients 200)
                  k (concat (map demo_clients ["Q2-AP1"; "Q2-AP2"]))) /\
    StronglySorted (fun a b => (snd b <= snd a)%Z) entries.
Proof.
  apply (top_talkers_table
           (demo_world "Meraki get top talkers" (Ok []) demo_networks demo_devices
                       demo_clients 200)
           "key" "net" demo_room demo_devices (Serials ["Q2-AP1"; "Q2-AP2"])
           demo_clients []).
  - reflexivity.
  - reflexivity.
  - intros sn _. reflexivity.
Defined.

(** The table of the example: the two spellings of one name count as one
    client, and the heavier client comes first. *)
Lemma top_talkers_demo_table :
  snd (spark_get_top_talkers_cmd
         (demo_world "Meraki get top talkers" (Ok []) demo_networks demo_devices
                     demo_clients 200)
         "key" "net" demo_room [])
  = [GetNetworkDevices "key" "net"; GetClients "key" "Q2-AP1" 3600;
     GetClients "key" "Q2-AP2" 3600;
     SparkPost demo_room
       (Rendered ["Client"; "Usage - kbytes past hour"]
                 [[CStr "ann's_phone"; CInt 165]; [CStr "printer_lab"; CInt 3]])].
Proof. vm_compute. reflexivity. Qed.

(** ** C10: the string ['errors'] in the device list *)




(** * Further properties of the handlers *)

(** ** The two access-point functions *)

Lemma slice_to_MR (s : string) :
  PyStr.slice_to 2 s = "MR" <-> exists rest, s = "MR" +:+ rest.
Proof.
  unfold PyStr.slice_to. split.
  - destruct s as [|c1 [|c2 rest]]; cbn; try discriminate.
    intros H. exists rest. destruct rest; by injection H as -> ->.
  - intros [rest ->]. by destruct rest.
Qed.

(** X1.  On a list of device records [get_ap_list] makes one request and returns,
    in order, exactly the serials of the devices whose model begins with
    [MR]. *)
Theorem ap_list_exact (W : World) (api_key net_id : string) (devs : list DeviceRecord)
    (tr : trace) :
  getnetworkdevices W api_key net_id = Ok (map RowDevice devs) ->
  get_ap_list W api_key net_id tr
  = (Ok (Serials (map serial (List.filter is_ap devs))),
     tr ++ [GetNetworkDevices api_key net_id]) /\
  (forall d, is_ap d = true <-> exists rest, model d = "MR" +:+ rest).
Proof.
  intros Hdev. split.
  - unfold get_ap_list, bind, call, lift. by rewrite Hdev, ap_rows_devices.
  - intros d. unfold is_ap. by rewrite String.eqb_eq, slice_to_MR.
Qed.

Lemma ap_list_exact_witness :
  get_ap_list help_world "key" "net" []
  = (Ok (Serials ["Q2-AP1"; "Q2-AP2"]), [] ++ [GetNetworkDevices "key" "net"]).
Proof.
  apply (proj1 (ap_list_exact help_world "key" "net" demo_device_records [] eq_refl)).
Defined.

Lemma filter_sublist_impl {A : Type} (p q : A -> bool) (l : list A) :
  (forall x, p x = true -> q x = true) ->
  List.filter p l `sublist_of` List.filter q l.
Proof.
  intros Hpq. induction l as [|x l IH]; cbn [List.filter]; [constructor|].
  destruct (p x) eqn:Hp.
  - rewrite (Hpq x Hp). by constructor.
  - destruct (q x); [by constructor|done].
Qed.

Lemma map_sublist {A B : Type} (f : A -> B) (l1 l2 : list A) :
  l1 `sublist_of` l2 -> map f l1 `sublist_of` map f l2.
Proof. induction 1; cbn [map]; by constructor. Qed.

Lemma concat_sublist {A : Type} (ls1 ls2 : list (list A)) :
  ls1 `sublist_of` ls2 -> concat ls1 `sublist_of` concat ls2.
Proof.
  induction 1 as [|l ls1 ls2 _ IH|l ls1 ls2 _ IH]; cbn [concat].
  - constructor.
  - by apply sublist_app.
  - by apply sublist_inserts_l.
Qed.

Lemma filter_sublist {A : Type} (p : A -> bool) (l : list A) :
  List.filter p l `sublist_of` l.
Proof.
  induction l as [|x l IH]; cbn [List.filter]; [constructor|].
  destruct (p x); by constructor.
Qed.

Lemma is_guest_ap_is_ap (d : DeviceRecord) : is_guest_ap d = true -> is_ap d = true.
Proof. unfold is_guest_ap, is_ap. by intros [? _]%andb_true_iff. Qed.

(** X2.  On the same device records, the serials [get_guest_ap_list] returns are
    among those [get_ap_list] returns, in the same order. *)
Theorem guest_aps_among_aps (devs : list DeviceRecord) :
  exists guests aps,
    guest_ap_rows (map RowDevice devs) [] = Ok (Serials guests) /\
    ap_rows (map RowDevice devs) [] = Ok (Serials aps) /\
    guests `sublist_of` aps.
Proof.
  eexists _, _. split; [apply guest_ap_rows_devices|]. split; [apply ap_rows_devices|].
  cbn [app]. apply map_sublist, filter_sublist_impl, is_guest_ap_is_ap.
Qed.

Lemma ap_rows_first_key (result : list device_row) (acc : list string) :
  match first_key result with
  | None => exists l, ap_rows result acc = Ok (Serials l)
  | Some s => ap_rows result acc
              = if String.eqb s "errors" then Ok (Sentinel "errors") else Raise TypeError
  end.
Proof.
  revert acc. induction result as [|[s|d] result IH]; intros acc; cbn [first_key ap_rows].
  - by eexists.
  - done.
  - destruct (String.eqb (PyStr.slice_to _ _) _); apply IH.
Qed.

Lemma guest_ap_rows_first_key (result : list device_row) (acc : list string) :
  match first_key result with
  | None => exists l, guest_ap_rows result acc = Ok (Serials l)
  | Some s => guest_ap_rows result acc
              = if String.eqb s "errors" then Ok (Sentinel "errors") else Raise TypeError
  end.
Proof.
  revert acc. induction result as [|[s|d] result IH]; intros acc;
    cbn [first_key guest_ap_rows].
  - by eexists.
  - done.
  - destruct (_ && _); apply IH.
Qed.

(** X3.  What the two functions return is decided by the first row that is a
    string: with none, a list of serials; with ['errors'], that string; with
    any other, [TypeError].  The two functions always agree on which, and
    the only string they ever return is ['errors']. *)
Theorem ap_functions_outcome (result : list device_row) :
  match first_key result with
  | None =>
      exists guests aps, guest_ap_rows result [] = Ok (Serials guests) /\
                         ap_rows result [] = Ok (Serials aps)
  | Some s =>
      if String.eqb s "errors"
      then guest_ap_rows result [] = Ok (Sentinel "errors") /\
           ap_rows result [] = Ok (Sentinel "errors")
      else guest_ap_rows result [] = Raise TypeError /\
           ap_rows result [] = Raise TypeError
  end.
Proof.
  pose proof (ap_rows_first_key result []) as Ha.
  pose proof (guest_ap_rows_first_key result []) as Hg.
  destruct (first_key result) as [s|].
  - rewrite Ha, Hg. by destruct (String.eqb s "errors").
  - destruct Ha as [aps Ha], Hg as [guests Hg]. by exists guests, aps.
Qed.

(** ** The tables printed in server order *)

(** X4.  The inventory handler makes one request and one post: a table of model,
    serial and MAC with one row per device, in the order of the answer. *)
Theorem inventory_table_in_server_order (W : World) (api_key org_id : string)
    (room_id : json) (inventory : list InventoryRow) (tr : trace) :
  getorginventory W api_key org_id = Ok inventory ->
  snd (spark_get_inventory_cmd W api_key org_id room_id tr)
  = tr ++ [GetOrgInventory api_key org_id;
           SparkPost room_id
             (Rendered ["Model"; "Serial Number"; "Mac Address"]
                       (map inventory_row inventory))].
Proof.
  intros Hinv. unfold spark_get_inventory_cmd, bind, call. rewrite Hinv.
  rewrite (add_rows_fold inventory_row).
  unfold post_to_spark, call, ret, table_str. cbn [field_names rows new_table app].
  destruct (spark_post W room_id _); cbn [snd]; by rewrite <- app_assoc.
Qed.

Lemma inventory_table_witness :
  snd (spark_get_inventory_cmd ssid_world "key" "org" demo_room [])
  = [] ++ [GetOrgInventory "key" "org";
           SparkPost demo_room
             (Rendered ["Model"; "Serial Number"; "Mac Address"]
                       (map inventory_row demo_inventory))].
Proof.
  apply (inventory_table_in_server_order ssid_world "key" "org" demo_room demo_inventory []).
  reflexivity.
Defined.

(** X5.  The SSID handler makes one request and one post: a table of number, name
    and enabled flag with one row per SSID, in the order of the answer. *)
Theorem ssids_table_in_server_order (W : World) (api_key net_id : string)
    (room_id : json) (ssids : list SSIDRecord) (tr : trace) :
  getssids W api_key net_id = Ok ssids ->
  snd (spark_get_ssids_cmd W api_key net_id room_id tr)
  = tr ++ [GetSsids api_key net_id;
           SparkPost room_id
             (Rendered ["SSID #"; "SSID Name"; "Enabled?"] (map ssid_row ssids))].
Proof.
  intros Hs. unfold spark_get_ssids_cmd, bind, call. rewrite Hs.
  rewrite (add_rows_fold ssid_row).
  unfold post_to_spark, call, ret, table_str. cbn [field_names rows new_table app].
  destruct (spark_post W room_id _); cbn [snd]; by rewrite <- app_assoc.
Qed.

Lemma ssids_table_witness :
  snd (spark_get_ssids_cmd ssid_world "key" "net" demo_room [])
  = [] ++ [GetSsids "key" "net";
           SparkPost demo_room
             (Rendered ["SSID #"; "SSID Name"; "Enabled?"] (map ssid_row demo_ssids))].
Proof.
  apply (ssids_table_in_server_order ssid_world "key" "net" demo_room demo_ssids []).
  reflexivity.
Defined.

(** ** A service does not answer *)

(** X6.  Each of the inventory, networks and SSID handlers and the rick roll
    makes one remote request first.  When that request fails, the function
    fails with the same exception after that one call: nothing is posted to
    the room. *)
Theorem request_failure_posts_nothing (cfg : Config) (W : World)
    (api_key org_id net_id number : string) (room_id : json) (e : exn) (tr : trace) :
  (getorginventory W api_key org_id = Raise e ->
   spark_get_inventory_cmd W api_key org_id room_id tr
   = (Raise e, tr ++ [GetOrgInventory api_key org_id])) /\
  (getnetworklist W api_key org_id = Raise e ->
   spark_get_networks_cmd W api_key org_id room_id tr
   = (Raise e, tr ++ [GetNetworkList api_key org_id])) /\
  (getssids W api_key net_id = Raise e ->
   spark_get_ssids_cmd W api_key net_id room_id tr
   = (Raise e, tr ++ [GetSsids api_key net_id])) /\
  (tropo_post W (tropo_voice_token cfg) number = Raise e ->
   meraki_rick_roll cfg W number room_id tr
   = (Raise e, tr ++ [TropoPost (tropo_voice_token cfg) number])).
Proof.
  unfold spark_get_inventory_cmd, spark_get_networks_cmd, spark_get_ssids_cmd,
    meraki_rick_roll, bind, call.
  repeat split; by intros ->.
Qed.

(** Only the inventory request fails: the networks are still answered. *)
Lemma request_failure_witness :
  getnetworklist
    (demo_world "Meraki get inventory" (Raise RequestError) demo_networks demo_devices
                demo_clients 200) "key" "org" = Ok demo_networks /\
  spark_get_inventory_cmd
    (demo_world "Meraki get inventory" (Raise RequestError) demo_networks demo_devices
                demo_clients 200) "key" "org" demo_room []
  = (Raise RequestError, [] ++ [GetOrgInventory "key" "org"]).
Proof.
  split; [reflexivity|].
  refine (proj1
    (request_failure_posts_nothing demo_cfg
       (demo_world "Meraki get inventory" (Raise RequestError) demo_networks demo_devices
                   demo_clients 200)
       "key" "org" "net" "5551234567" demo_room RequestError []) _).
  reflexivity.
Defined.

(** X7.  When the list of devices cannot be fetched, the three client handlers
    fail with the same exception after that one request: no access point is
    asked for its clients and nothing is posted to the room. *)
Theorem device_list_failure_posts_nothing (cfg : Config) (W : World)
    (api_key net_id : string) (room_id : json) (e : exn) (tr : trace) :
  getnetworkdevices W api_key net_id = Raise e ->
  spark_get_guest_clients_cmd cfg W api_key net_id room_id tr
  = (Raise e, tr ++ [GetNetworkDevices api_key net_id]) /\
  spark_get_mr_clients_cmd cfg W api_key net_id room_id tr
  = (Raise e, tr ++ [GetNetworkDevices api_key net_id]) /\
  spark_get_top_talkers_cmd W api_key net_id room_id tr
  = (Raise e, tr ++ [GetNetworkDevices api_key net_id]).
Proof.
  intros Hd.
  unfold spark_get_guest_clients_cmd, spark_get_mr_clients_cmd,
    spark_get_top_talkers_cmd, get_guest_ap_list, get_ap_list, bind, call.
  by rewrite Hd.
Qed.

Lemma device_list_failure_witness :
  spark_get_top_talkers_cmd down_world "key" "net" demo_room []
  = (Raise RequestError, [] ++ [GetNetworkDevices "key" "net"]).
Proof.
  refine (proj2 (proj2
    (device_list_failure_posts_nothing demo_cfg down_world "key" "net"
       demo_room RequestError [] _))); reflexivity.
Defined.

Lemma for_each_calls_fail {A St : Type} (pre post : list A) (x : A)
    (body : A -> St -> M St) (step : A -> St -> St) (ev : A -> event)
    (e : exn) (s : St) (tr : trace) :
  (forall y st tr', In y pre -> body y st tr' = (Ok (step y st), tr' ++ [ev y])) ->
  (forall st tr', body x st tr' = (Raise e, tr' ++ [ev x])) ->
  for_each (pre ++ x :: post) body s tr = (Raise e, tr ++ map ev (pre ++ [x])).
Proof.
  intros Hpre Hx. revert s tr Hpre.
  induction pre as [|y pre IH]; intros s tr Hpre; cbn [app for_each map]; unfold bind.
  - by rewrite Hx.
  - rewrite Hpre by (by left). rewrite IH by (intros; apply Hpre; by right).
    by rewrite <- app_assoc.
Qed.

(** X8.  A client fetch that fails stops the mr-clients handler (which asks
    with the configured key for the last 900 seconds) and the top-talkers
    handler (which asks with its own key for the last 3600 seconds) at that
    device: the devices before it were asked, the later ones are not, and
    nothing is posted. *)
Theorem client_fetch_failure_stops (cfg : Config) (W : World)
    (api_key net_id : string) (room_id : json) (result : list device_row)
    (sn_list : ap_list) (pre post : list string) (sn : string)
    (clients : string -> list ClientRecord) (e : exn) (tr : trace) :
  getnetworkdevices W api_key net_id = Ok result ->
  ap_rows result [] = Ok sn_list ->
  iterate sn_list = pre ++ sn :: post ->
  ((forall y, In y pre -> getclients W (my_api_key cfg) y 900 = Ok (clients y)) ->
   getclients W (my_api_key cfg) sn 900 = Raise e ->
   spark_get_mr_clients_cmd cfg W api_key net_id room_id tr
   = (Raise e, tr ++ GetNetworkDevices api_key net_id
                  :: map (fun sn => GetClients (my_api_key cfg) sn 900) (pre ++ [sn]))) /\
  ((forall y, In y pre -> getclients W api_key y 3600 = Ok (clients y)) ->
   getclients W api_key sn 3600 = Raise e ->
   spark_get_top_talkers_cmd W api_key net_id room_id tr
   = (Raise e, tr ++ GetNetworkDevices api_key net_id
                  :: map (fun sn => GetClients api_key sn 3600) (pre ++ [sn]))).
Proof.
  intros Hdev Hap Hit.
  unfold spark_get_mr_clients_cmd, spark_get_top_talkers_cmd, get_ap_list, bind, call, lift.
  rewrite Hdev, Hap, Hit. split; intros Hpre Hsn.
  - rewrite (for_each_calls_fail pre post sn _
               (fun sn (st : nat * (nat * PrettyTable)) =>
                  (S (fst st), mr_client_rows (clients sn) (snd st)))
               (fun sn => GetClients (my_api_key cfg) sn 900) e).
    + by rewrite <- app_assoc.
    + intros y [mr_count inner] tr' Hin. unfold bind, call, ret. by rewrite Hpre.
    + intros [mr_count inner] tr'. unfold bind, call. by rewrite Hsn.
  - rewrite (for_each_calls_fail pre post sn _
               (fun sn ct => aggregate_rows W (clients sn) ct)
               (fun sn => GetClients api_key sn 3600) e).
    + by rewrite <- app_assoc.
    + intros y st tr' Hin. unfold bind, call, ret. by rewrite Hpre.
    + intros st tr'. unfold bind, call. by rewrite Hsn.
Qed.

(** The fetch of the second access point fails for the last 900 seconds
    only: the mr-clients handler stops there, whatever a fetch for the last
    3600 seconds would give. *)
Lemma client_fetch_failure_witness :
  getclients (window_world "Q2-AP2") "key" "Q2-AP2" 3600 = Ok (demo_clients "Q2-AP2") /\
  spark_get_mr_clients_cmd demo_cfg (window_world "Q2-AP2") "key" "net" demo_room []
  = (Raise RequestError,
     [] ++ GetNetworkDevices "key" "net"
        :: map (fun sn => GetClients "key" sn 900) (["Q2-AP1"] ++ ["Q2-AP2"])).
Proof.
  split; [reflexivity|].
  refine (proj1
    (client_fetch_failure_stops demo_cfg (window_world "Q2-AP2") "key" "net" demo_room
       demo_devices (Serials ["Q2-AP1"; "Q2-AP2"]) ["Q2-AP1"] [] "Q2-AP2"
       demo_clients RequestError [] _ _ _) _ _).
  - reflexivity.
  - reflexivity.
  - reflexivity.
  - intros y [<-|[]]. reflexivity.
  - reflexivity.
Defined.

(** X9.  A client fetch that fails stops the guest-clients handler at that
    device: the later devices are not asked and nothing is posted. *)
Theorem guest_client_fetch_failure_stops (cfg : Config) (W : World)
    (api_key net_id : string) (room_id : json) (result : list device_row)
    (sn_list : ap_list) (pre post : list string) (sn : string)
    (clients : string -> list ClientRecord) (e : exn) (tr : trace) :
  getnetworkdevices W api_key net_id = Ok result ->
  guest_ap_rows result [] = Ok sn_list ->
  iterate sn_list = pre ++ sn :: post ->
  (forall y, In y pre -> getclients W (my_api_key cfg) y 900 = Ok (clients y)) ->
  getclients W (my_api_key cfg) sn 900 = Raise e ->
  spark_get_guest_clients_cmd cfg W api_key net_id room_id tr
  = (Raise e, tr ++ GetNetworkDevices api_key net_id
                 :: map (fun sn => GetClients (my_api_key cfg) sn 900) (pre ++ [sn])).
Proof.
  intros Hdev Hap Hit Hpre Hsn.
  unfold spark_get_guest_clients_cmd, get_guest_ap_list, bind, call, lift.
  rewrite Hdev, Hap, Hit.
  rewrite (for_each_calls_fail pre post sn _
             (fun sn st => guest_client_rows (clients sn) st)
             (fun sn => GetClients (my_api_key cfg) sn 900) e).
  - by rewrite <- app_assoc.
  - intros y st tr' Hin. unfold bind, call, ret. by rewrite Hpre.
  - intros st tr'. unfold bind, call. by rewrite Hsn.
Qed.

Lemma guest_client_fetch_failure_witness :
  spark_get_guest_clients_cmd demo_cfg (flaky_world "Q2-AP1") "key" "net" demo_room []
  = (Raise RequestError,
     [] ++ GetNetworkDevices "key" "net"
        :: map (fun sn => GetClients "key" sn 900) ([] ++ ["Q2-AP1"])).
Proof.
  apply (guest_client_fetch_failure_stops demo_cfg (flaky_world "Q2-AP1") "key" "net"
           demo_room demo_devices (Serials ["Q2-AP1"]) [] [] "Q2-AP1"
           demo_clients RequestError []).
  - reflexivity.
  - reflexivity.
  - reflexivity.
  - intros y [].
  - reflexivity.
Defined.

(** ** What the two client handlers post *)

(** X10.  When every call is answered, the guest-clients handler asks each guest
    access point for its clients of the last 900 seconds and posts two
    messages: a count, then a table.  The count is the number of rows of
    the table, and the rows are the clients on the subnet, device by
    device. *)
Theorem guest_clients_report (cfg : Config) (W : World) (api_key net_id : string)
    (room_id : json) (result : list device_row) (sn_list : ap_list)
    (clients : string -> list ClientRecord) (tr : trace) :
  getnetworkdevices W api_key net_id = Ok result ->
  guest_ap_rows result [] = Ok sn_list ->
  (forall sn, In sn (iterate sn_list) ->
              getclients W (my_api_key cfg) sn 900 = Ok (clients sn)) ->
  (forall body, exists status, spark_post W room_id body = Ok status) ->
  exists kept,
    kept = List.filter subnet_match (concat (map clients (iterate sn_list))) /\
    spark_get_guest_clients_cmd cfg W api_key net_id room_id tr
    = (Ok tt,
       tr ++ GetNetworkDevices api_key net_id
          :: map (fun sn => GetClients (my_api_key cfg) sn 900) (iterate sn_list)
          ++ [SparkPost room_id
                (Plain ("There are " +:+ PyStr.of_nat (length kept)
                        +:+ " users on the guest wireless network"));
              SparkPost room_id
                (Rendered ["Description"; "IP"; "MAC"] (map client_row kept))]).
Proof.
  intros Hdev Hap Hcl Hpost. eexists. split; [reflexivity|].
  by apply (guest_clients_run cfg W api_key net_id room_id result sn_list clients tr).
Qed.

Lemma guest_clients_report_witness :
  exists kept,
    kept = List.filter subnet_match (concat (map demo_clients ["Q2-AP1"])) /\
    spark_get_guest_clients_cmd demo_cfg help_world "key" "net" demo_room []
    = (Ok tt,
       [] ++ GetNetworkDevices "key" "net"
          :: map (fun sn => GetClients "key" sn 900) ["Q2-AP1"]
          ++ [SparkPost demo_room
                (Plain ("There are " +:+ PyStr.of_nat (length kept)
                        +:+ " users on the guest wireless network"));
              SparkPost demo_room
                (Rendered ["Description"; "IP"; "MAC"] (map client_row kept))]).
Proof.
  apply (guest_clients_report demo_cfg help_world "key" "net" demo_room demo_devices
           (Serials ["Q2-AP1"]) demo_clients []).
  - reflexivity.
  - reflexivity.
  - intros sn _. reflexivity.
  - intros body. by exists 200%Z.
Defined.

(** X11.  When every call is answered, the mr-clients handler posts the number of
    clients found and the number of devices asked, then a table with one
    row per client, device by device. *)
Theorem mr_clients_report (cfg : Config) (W : World) (api_key net_id : string)
    (room_id : json) (result : list device_row) (sn_list : ap_list)
    (clients : string -> list ClientRecord) (tr : trace) :
  getnetworkdevices W api_key net_id = Ok result ->
  ap_rows result [] = Ok sn_list ->
  (forall sn, In sn (iterate sn_list) ->
              getclients W (my_api_key cfg) sn 900 = Ok (clients sn)) ->
  (forall body, exists status, spark_post W room_id body = Ok status) ->
  exists found,
    found = concat (map clients (iterate sn_list)) /\
    spark_get_mr_clients_cmd cfg W api_key net_id room_id tr
    = (Ok tt,
       tr ++ GetNetworkDevices api_key net_id
          :: map (fun sn => GetClients (my_api_key cfg) sn 900) (iterate sn_list)
          ++ [SparkPost room_id
                (Plain ("There are " +:+ PyStr.of_nat (length found)
                        +:+ " users on the wireless network across "
                        +:+ PyStr.of_nat (length (iterate sn_list)) +:+ " MR devices"));
              SparkPost room_id
                (Rendered ["Description"; "IP"; "MAC"] (map client_row found))]).
Proof.
  intros Hdev Hap Hcl Hpost. eexists. split; [reflexivity|].
  by apply (mr_clients_run cfg W api_key net_id room_id result sn_list clients tr).
Qed.

Lemma mr_clients_report_witness :
  exists found,
    found = concat (map demo_clients ["Q2-AP1"; "Q2-AP2"]) /\
    spark_get_mr_clients_cmd demo_cfg help_world "key" "net" demo_room []
    = (Ok tt,
       [] ++ GetNetworkDevices "key" "net"
          :: map (fun sn => GetClients "key" sn 900) ["Q2-AP1"; "Q2-AP2"]
          ++ [SparkPost demo_room
                (Plain ("There are " +:+ PyStr.of_nat (length found)
                        +:+ " users on the wireless network across "
                        +:+ PyStr.of_nat 2 +:+ " MR devices"));
              SparkPost demo_room
                (Rendered ["Description"; "IP"; "MAC"] (map client_row found))]).
Proof.
  apply (mr_clients_report demo_cfg help_world "key" "net" demo_room demo_devices
           (Serials ["Q2-AP1"; "Q2-AP2"]) demo_clients []).
  - reflexivity.
  - reflexivity.
  - intros sn _. reflexivity.
  - intros body. by exists 200%Z.
Defined.

(** X12.  In one world, every row of the guest table is a row of the table of all
    wireless clients, in the same order. *)
Theorem guest_table_within_mr_table (cfg : Config) (W : World) (api_key net_id : string)
    (room_id : json) (devs : list DeviceRecord)
    (clients : string -> list ClientRecord) (tr : trace) :
  getnetworkdevices W api_key net_id = Ok (map RowDevice devs) ->
  (forall sn, getclients W (my_api_key cfg) sn 900 = Ok (clients sn)) ->
  (forall body, exists status, spark_post W room_id body = Ok status) ->
  exists guest_rows mr_rows pre1 pre2,
    snd (spark_get_guest_clients_cmd cfg W api_key net_id room_id tr)
    = pre1 ++ [SparkPost room_id (Rendered ["Description"; "IP"; "MAC"] guest_rows)] /\
    snd (spark_get_mr_clients_cmd cfg W api_key net_id room_id tr)
    = pre2 ++ [SparkPost room_id (Rendered ["Description"; "IP"; "MAC"] mr_rows)] /\
    guest_rows `sublist_of` mr_rows.
Proof.
  intros Hdev Hcl Hpost.
  rewrite (guest_clients_run cfg W api_key net_id room_id _ _ clients tr Hdev
             (guest_ap_rows_devices devs []) (fun sn _ => Hcl sn) Hpost).
  rewrite (mr_clients_run cfg W api_key net_id room_id _ _ clients tr Hdev
             (ap_rows_devices devs []) (fun sn _ => Hcl sn) Hpost).
  cbn [snd iterate app].
  eexists _, _, _, _. split; [|split].
  - rewrite app_comm_cons, (app_assoc _ _ [_; _]).
    change [?a; ?b] with ([a] ++ [b]). rewrite (app_assoc _ [_] [_]). reflexivity.
  - rewrite app_comm_cons, (app_assoc _ _ [_; _]).
    change [?a; ?b] with ([a] ++ [b]). rewrite (app_assoc _ [_] [_]). reflexivity.
  - apply map_sublist. etrans; [apply filter_sublist|].
    apply concat_sublist, map_sublist, map_sublist.
    apply filter_sublist_impl, is_guest_ap_is_ap.
Qed.

Lemma guest_table_within_mr_table_witness :
  exists guest_rows mr_rows pre1 pre2,
    snd (spark_get_guest_clients_cmd demo_cfg help_world "key" "net" demo_room [])
    = pre1 ++ [SparkPost demo_room (Rendered ["Description"; "IP"; "MAC"] guest_rows)] /\
    snd (spark_get_mr_clients_cmd demo_cfg help_world "key" "net" demo_room [])
    = pre2 ++ [SparkPost demo_room (Rendered ["Description"; "IP"; "MAC"] mr_rows)] /\
    guest_rows `sublist_of` mr_rows.
Proof.
  apply (guest_table_within_mr_table demo_cfg help_world "key" "net" demo_room
           demo_device_records demo_clients []).
  - reflexivity.
  - intros sn. reflexivity.
  - intros body. by exists 200%Z.
Defined.

(** ** The dispatcher *)

(** X13.  A text that is none of the seven literal commands (compared exactly,
    case and spaces included) and does not begin with the rick-roll prefix,
    or is not a string, gets one post: "Please enter a valid command". *)
Theorem unknown_command_error_message (cfg : Config) (W : World) (t_text room_id : json)
    (tr : trace) :
  is_known t_text = false ->
  dispatch cfg W t_text room_id tr
  = (match spark_post W room_id (Plain "Please enter a valid command") with
     | Ok _ => Ok tt
     | Raise e => Raise e
     end,
     tr ++ [SparkPost room_id (Plain "Please enter a valid command")]).
Proof.
  intros Hk.
  assert (Herr : spark_err_msg W room_id tr
                 = (match spark_post W room_id (Plain "Please enter a valid command") with
                    | Ok _ => Ok tt
                    | Raise e => Raise e
                    end,
                    tr ++ [SparkPost room_id (Plain "Please enter a valid command")])).
  { unfold spark_err_msg, bind, post_to_spark, call, ret.
    by destruct (spark_post W room_id _). }
  unfold dispatch. destruct t_text as [| | |s| |]; cbn [eq_str py_str]; try exact Herr.
  cbn [is_known commands existsb] in Hk.
  apply orb_false_iff in Hk as [Hlit Hpre].
  repeat match goal with
         | H : _ || _ = false |- _ => apply orb_false_iff in H as [? ?]
         end.
  repeat match goal with
         | H : String.eqb _ _ = false |- _ => rewrite H; clear H
         end.
  unfold PyStr.startswith. rewrite Hpre. exact Herr.
Qed.

Lemma unknown_command_witness :
  dispatch demo_cfg help_world (JStr "meraki get inventory") demo_room []
  = (Ok tt, [] ++ [SparkPost demo_room (Plain "Please enter a valid command")]).
Proof.
  apply (unknown_command_error_message demo_cfg help_world
           (JStr "meraki get inventory") demo_room []).
  reflexivity.
Defined.

(** X14.  Whatever follows the rick-roll prefix goes to Tropo as it is, in the
    first call; at most one message to the room follows. *)
Theorem rick_roll_argument_verbatim (cfg : Config) (W : World) (rest : string)
    (room_id : json) (tr : trace) :
  exists out,
    snd (dispatch cfg W (JStr ("Meraki rick roll " +:+ rest)) room_id tr)
    = tr ++ TropoPost (tropo_voice_token cfg) rest :: out /\
    forallb is_spark_post out = true /\ length out <= 1.
Proof.
  rewrite dispatch_rick_roll_prefix, rick_roll_trace.
  eexists. split; [reflexivity|].
  destruct (tropo_post W (tropo_voice_token cfg) rest); cbn; split; (done || lia).
Qed.

(** ** The calls of an invocation *)

Lemma emits_ret {A : Type} (P : event -> Prop) (a : A) : emits P (ret a).
Proof. intros tr. exists []. by rewrite app_nil_r. Qed.

Lemma emits_raise {A : Type} (P : event -> Prop) (e : exn) : emits P (@raise A e).
Proof. intros tr. exists []. by rewrite app_nil_r. Qed.

Lemma emits_lift {A : Type} (P : event -> Prop) (r : outcome A) : emits P (lift r).
Proof. intros tr. exists []. by rewrite app_nil_r. Qed.

Lemma emits_call {A : Type} (P : event -> Prop) (e : event) (r : outcome A) :
  P e -> emits P (call e r).
Proof. intros He tr. exists [e]. split; [done|]. by constructor. Qed.

Lemma emits_bind {A B : Type} (P : event -> Prop) (m : M A) (k : A -> M B) :
  emits P m -> (forall a, emits P (k a)) -> emits P (bind m k).
Proof.
  intros Hm Hk tr. unfold bind. destruct (Hm tr) as (o1 & H1 & HP1).
  destruct (m tr) as [[a|e] tr1]; cbn [snd] in H1; subst tr1.
  - destruct (Hk a (tr ++ o1)) as (o2 & H2 & HP2).
    exists (o1 ++ o2). rewrite H2, app_assoc. split; [done|]. by apply Forall_app.
  - by exists o1.
Qed.

Lemma emits_for_each {A St : Type} (P : event -> Prop) (l : list A)
    (body : A -> St -> M St) (s : St) :
  (forall x st, emits P (body x st)) -> emits P (for_each l body s).
Proof.
  intros Hbody. revert s. induction l as [|x l IH]; intros s; cbn [for_each].
  - apply emits_ret.
  - apply emits_bind; [apply Hbody|]. intros s'. apply IH.
Qed.

Lemma emits_impl {A : Type} (P Q : event -> Prop) (m : M A) :
  (forall e, P e -> Q e) -> emits P m -> emits Q m.
Proof.
  intros HPQ Hm tr. destruct (Hm tr) as (out & H & HP).
  exists out. split; [done|]. eapply Forall_impl; eauto.
Qed.

Ltac emits_step :=
  first [ apply emits_ret | apply emits_raise | apply emits_lift
        | apply emits_call; cbn; by auto
        | apply emits_bind; [|intros ?]
        | apply emits_for_each; intros ? ? ].

Lemma post_emits (W : World) (api_key org_id net_id : string) (room_id : json)
    (body : text) :
  emits (handler_call api_key org_id net_id room_id) (post_to_spark W room_id body).
Proof. apply emits_call. done. Qed.

Lemma inventory_emits (W : World) (api_key org_id net_id : string) (room_id : json) :
  emits (handler_call api_key org_id net_id room_id)
        (spark_get_inventory_cmd W api_key org_id room_id).
Proof. unfold spark_get_inventory_cmd. repeat emits_step; apply post_emits. Qed.

Lemma networks_emits (W : World) (api_key org_id net_id : string) (room_id : json) :
  emits (handler_call api_key org_id net_id room_id)
        (spark_get_networks_cmd W api_key org_id room_id).
Proof. unfold spark_get_networks_cmd. repeat emits_step; apply post_emits. Qed.

Lemma ssids_emits (W : World) (api_key org_id net_id : string) (room_id : json) :
  emits (handler_call api_key org_id net_id room_id)
        (spark_get_ssids_cmd W api_key net_id room_id).
Proof. unfold spark_get_ssids_cmd. repeat emits_step; apply post_emits. Qed.

Lemma guest_ap_list_emits (W : World) (api_key org_id net_id : string) (room_id : json) :
  emits (handler_call api_key org_id net_id room_id) (get_guest_ap_list W api_key net_id).
Proof. unfold get_guest_ap_list. repeat emits_step. Qed.

Lemma ap_list_emits (W : World) (api_key org_id net_id : string) (room_id : json) :
  emits (handler_call api_key org_id net_id room_id) (get_ap_list W api_key net_id).
Proof. unfold get_ap_list. repeat emits_step. Qed.

Lemma guest_clients_emits (cfg : Config) (W : World) (org_id net_id : string)
    (room_id : json) :
  emits (handler_call (my_api_key cfg) org_id net_id room_id)
        (spark_get_guest_clients_cmd cfg W (my_api_key cfg) net_id room_id).
Proof.
  unfold spark_get_guest_clients_cmd.
  apply emits_bind; [apply guest_ap_list_emits|]. intros sn_list.
  apply emits_bind; [repeat emits_step|]. intros [client_count table].
  repeat emits_step; apply post_emits.
Qed.

Lemma mr_clients_emits (cfg : Config) (W : World) (org_id net_id : string)
    (room_id : json) :
  emits (handler_call (my_api_key cfg) org_id net_id room_id)
        (spark_get_mr_clients_cmd cfg W (my_api_key cfg) net_id room_id).
Proof.
  unfold spark_get_mr_clients_cmd.
  apply emits_bind; [apply ap_list_emits|]. intros sn_list.
  apply emits_bind.
  { apply emits_for_each. intros sn [mr_count inner]. repeat emits_step. }
  intros [mr_count [client_count table]].
  repeat emits_step; apply post_emits.
Qed.

Lemma top_talkers_emits (W : World) (api_key org_id net_id : string) (room_id : json) :
  emits (handler_call api_key org_id net_id room_id)
        (spark_get_top_talkers_cmd W api_key net_id room_id).
Proof.
  unfold spark_get_top_talkers_cmd.
  apply emits_bind; [apply ap_list_emits|]. intros sn_list.
  repeat emits_step; apply post_emits.
Qed.

Lemma err_msg_emits (W : World) (api_key org_id net_id : string) (room_id : json) :
  emits (handler_call api_key org_id net_id room_id) (spark_err_msg W room_id).
Proof. unfold spark_err_msg. repeat emits_step; apply post_emits. Qed.

Lemma rick_roll_emits (cfg : Config) (W : World) (number : string) (room_id : json)
    (P : event -> Prop) :
  P (TropoPost (tropo_voice_token cfg) number) ->
  (forall body, P (SparkPost room_id body)) ->
  emits P (meraki_rick_roll cfg W number room_id).
Proof.
  intros Ht Hp. unfold meraki_rick_roll.
  apply emits_bind; [by apply emits_call|]. intros status.
  destruct (status =? 200)%Z; unfold post_to_spark; repeat emits_step;
    apply emits_call; apply Hp.
Qed.

Lemma dispatch_emits (cfg : Config) (W : World) (t_text room_id : json) :
  emits (dispatch_call cfg t_text room_id) (dispatch cfg W t_text room_id).
Proof.
  assert (Hh : forall (A : Type) (m : M A),
             emits (handler_call (my_api_key cfg) (my_org_id cfg) (my_net_id cfg) room_id) m ->
             emits (dispatch_call cfg t_text room_id) m).
  { intros A m. apply emits_impl. intros e He. by destruct e. }
  unfold dispatch.
  repeat match goal with
         | |- context [if eq_str ?v ?lit then _ else _] => destruct (eq_str v lit)
         end.
  - apply Hh. repeat emits_step; try apply post_emits.
  - apply Hh, inventory_emits.
  - apply Hh, networks_emits.
  - apply Hh, ssids_emits.
  - apply Hh, mr_clients_emits.
  - apply Hh, guest_clients_emits.
  - apply Hh, top_talkers_emits.
  - destruct t_text as [| | |s| |]; cbn [py_str]; try (apply Hh, err_msg_emits).
    unfold PyStr.startswith.
    destruct (String.prefix "Meraki rick roll " s) eqn:Hp; [|apply Hh, err_msg_emits].
    destruct (nth_error _ 1) as [num|]; [|apply emits_raise].
    cbn [is_not_None]. apply rick_roll_emits; cbn; auto.
Qed.

Lemma lambda_handler_calls (cfg : Config) (W : World) (event : json) (tr : trace) :
  snd (lambda_handler cfg W event tr) = tr \/
  exists msg_id room_id,
    data_id event = Ok msg_id /\ event_room event = Ok room_id /\
    (snd (lambda_handler cfg W event tr) = tr ++ [SparkGet msg_id] \/
     exists t t_text out,
       spark_get W msg_id = Ok t /\ subscript t "text" = Ok t_text /\
       snd (lambda_handler cfg W event tr) = tr ++ SparkGet msg_id :: out /\
       Forall (dispatch_call cfg t_text room_id) out).
Proof.
  unfold lambda_handler, data_id, event_room, bind, lift, call.
  destruct (subscript event "data") as [data|e]; [|by left].
  destruct (subscript data "id") as [msg_id|e]; [|by left].
  destruct (subscript data "roomId") as [room_id|e]; [|by left].
  right. exists msg_id, room_id. split; [done|]. split; [done|].
  destruct (spark_get W msg_id) as [t|e] eqn:Hget; [|by left].
  destruct (subscript t "text") as [t_text|e] eqn:Htext; [|by left].
  right. exists t, t_text.
  destruct (dispatch_emits cfg W t_text room_id (tr ++ [SparkGet msg_id]))
    as (out & Hout & HP).
  exists out. split; [done|]. split; [done|]. split; [|done].
  destruct (dispatch cfg W t_text room_id (tr ++ [SparkGet msg_id])) as [[u|e] tr'];
    cbn [snd] in Hout |- *; subst tr'; unfold ret; cbn [snd];
    by rewrite <- app_assoc.
Qed.

(** X15.  Whatever the services answer, every message of an invocation is posted
    to the room named in the event. *)
Theorem posts_go_to_event_room (cfg : Config) (W : World) (event : json) (tr : trace) :
  exists out,
    snd (lambda_handler cfg W event tr) = tr ++ out /\
    forall room body, In (SparkPost room body) out -> event_room event = Ok room.
Proof.
  destruct (lambda_handler_calls cfg W event tr)
    as [H|(msg_id & room_id & Hid & Hroom & [H|(t & t_text & out & _ & _ & H & HP)])].
  - exists []. rewrite app_nil_r. split; [done|]. intros ? ? [].
  - exists [SparkGet msg_id]. split; [done|]. intros ? ? [Hin|[]]. discriminate.
  - exists (SparkGet msg_id :: out). split; [done|].
    intros room body [Hin|Hin]; [discriminate|].
    rewrite List.Forall_forall in HP. specialize (HP _ Hin). cbn in HP. by subst.
Qed.

(** X16.  Whatever the services answer, every dashboard and Tropo request of an
    invocation carries the configured credentials and identifiers, and the
    message is fetched once, as the first call, by the id of the event. *)
Theorem calls_use_config (cfg : Config) (W : World) (event : json) (tr : trace) :
  exists out,
    snd (lambda_handler cfg W event tr) = tr ++ out /\
    Forall (uses_config cfg) out /\
    (out = [] \/
     exists msg_id rest, out = SparkGet msg_id :: rest /\ data_id event = Ok msg_id /\
                         forallb (fun e => negb (is_spark_get e)) rest = true).
Proof.
  destruct (lambda_handler_calls cfg W event tr)
    as [H|(msg_id & room_id & Hid & Hroom & [H|(t & t_text & out & _ & _ & H & HP)])].
  - exists []. rewrite app_nil_r. split; [done|]. split; [constructor|by left].
  - exists [SparkGet msg_id]. split; [done|]. split; [by repeat constructor|].
    right. by exists msg_id, [].
  - exists (SparkGet msg_id :: out). split; [done|]. split.
    + constructor; [done|]. eapply Forall_impl; [exact HP|].
      intros e He. destruct e; cbn in He |- *; tauto.
    + right. exists msg_id, out. split; [done|]. split; [done|].
      apply forallb_forall. intros e Hin.
      rewrite List.Forall_forall in HP. specialize (HP _ Hin). by destruct e.
Qed.

Lemma is_rick_roll_inv (t_text : json) :
  is_rick_roll t_text = true ->
  exists rest, t_text = JStr ("Meraki rick roll " +:+ rest).
Proof.
  destruct t_text as [| | |s| |]; try discriminate. cbn [is_rick_roll].
  intros [rest ->]%prefix_inv. by exists rest.
Qed.

(** X17.  The dispatcher calls Tropo at most once, and not at all unless the text
    begins with the rick-roll prefix. *)
Theorem tropo_only_for_rick_roll (cfg : Config) (W : World) (t_text room_id : json)
    (tr : trace) :
  exists out,
    snd (dispatch cfg W t_text room_id tr) = tr ++ out /\
    length (List.filter is_tropo_post out) <= 1 /\
    (is_rick_roll t_text = false -> List.filter is_tropo_post out = []).
Proof.
  destruct (is_rick_roll t_text) eqn:Hrr.
  - apply is_rick_roll_inv in Hrr as [rest ->].
    rewrite dispatch_rick_roll_prefix, rick_roll_trace.
    eexists. split; [reflexivity|]. split; [|done].
    cbn [List.filter is_tropo_post].
    destruct (tropo_post W (tropo_voice_token cfg) rest); cbn; lia.
  - destruct (dispatch_emits cfg W t_text room_id tr) as (out & Hout & HP).
    exists out. split; [done|].
    assert (Hnone : List.filter is_tropo_post out = []).
    { clear Hout. induction HP as [|e out He HP IH]; [done|].
      cbn [List.filter]. destruct e; cbn [is_tropo_post]; try exact IH.
      cbn in He. rewrite Hrr in He. by destruct He. }
    rewrite Hnone. split; [cbn; lia|done].
Qed.

Lemma tropo_only_for_rick_roll_witness :
  exists out,
    snd (dispatch demo_cfg help_world (JStr "Meraki get top talkers") demo_room [])
    = [] ++ out /\ List.filter is_tropo_post out = [].
Proof.
  destruct (tropo_only_for_rick_roll demo_cfg help_world
              (JStr "Meraki get top talkers") demo_room []) as (out & H & _ & Hno).
  exists out. split; [exact H|]. apply Hno. reflexivity.
Defined.

Lemma ends_bind {A B : Type} (room_id : json) (m : M A) (k : A -> M B) :
  (forall a, ends_with_post room_id (k a)) -> ends_with_post room_id (bind m k).
Proof.
  intros Hk tr r tr'. unfold bind.
  destruct (m tr) as [[a|e] tr1]; [apply Hk|discriminate].
Qed.

Lemma ends_post (W : World) (room_id : json) (body : text) :
  ends_with_post room_id (bind (post_to_spark W room_id body) (fun _ => ret tt)).
Proof.
  intros tr r tr'. unfold bind, post_to_spark, call, ret.
  destruct (spark_post W room_id body); [|discriminate].
  intros [= _ <-]. by exists tr, body.
Qed.

Lemma ends_raise {A : Type} (room_id : json) (e : exn) :
  ends_with_post room_id (@raise A e).
Proof. intros tr r tr'. discriminate. Qed.

Ltac ends_step :=
  first [ apply ends_post | apply ends_raise | apply ends_bind; intros ? ].

Lemma dispatch_ends_with_post (cfg : Config) (W : World) (t_text room_id : json) :
  ends_with_post room_id (dispatch cfg W t_text room_id).
Proof.
  unfold dispatch.
  repeat match goal with
         | |- context [if eq_str ?v ?lit then _ else _] => destruct (eq_str v lit)
         end.
  - apply ends_post.
  - unfold spark_get_inventory_cmd. repeat ends_step.
  - unfold spark_get_networks_cmd. repeat ends_step.
  - unfold spark_get_ssids_cmd. repeat ends_step.
  - unfold spark_get_mr_clients_cmd. do 2 ends_step.
    destruct a0 as [mr_count [client_count table]]. repeat ends_step.
  - unfold spark_get_guest_clients_cmd. do 2 ends_step.
    destruct a0 as [client_count table]. repeat ends_step.
  - unfold spark_get_top_talkers_cmd. repeat ends_step.
  - assert (Herr : ends_with_post room_id (spark_err_msg W room_id)) by apply ends_post.
    destruct (py_str t_text) as [s|]; [|exact Herr].
    destruct (PyStr.startswith _ s); [|exact Herr].
    destruct (nth_error _ 1) as [num|]; [|apply ends_raise].
    cbn [is_not_None]. unfold meraki_rick_roll. ends_step.
    destruct (a =? 200)%Z; apply ends_post.
Qed.

(** X18.  An invocation that completes returns ["Finished"], and the last call it
    made is a message posted to the room of the event. *)
Theorem completion_ends_with_post (cfg : Config) (W : World) (event : json)
    (tr tr' : trace) (v : string) :
  lambda_handler cfg W event tr = (Ok v, tr') ->
  v = "Finished" /\
  exists room_id pre body,
    event_room event = Ok room_id /\ tr' = pre ++ [SparkPost room_id body].
Proof.
  unfold lambda_handler, event_room, bind, lift, call.
  destruct (subscript event "data") as [data|e]; [|discriminate].
  destruct (subscript data "id") as [msg_id|e]; [|discriminate].
  destruct (subscript data "roomId") as [room_id|e]; [|discriminate].
  destruct (spark_get W msg_id) as [t|e]; [|discriminate].
  destruct (subscript t "text") as [t_text|e]; [|discriminate].
  destruct (dispatch cfg W t_text room_id (tr ++ [SparkGet msg_id]))
    as [[u|e] tr1] eqn:Hrun; [|discriminate].
  intros [= <- <-]. split; [done|].
  destruct (dispatch_ends_with_post cfg W t_text room_id _ _ _ Hrun) as (pre & body & ->).
  by exists room_id, pre, body.
Qed.

Lemma completion_ends_with_post_witness :
  "Finished" = "Finished" /\
  exists room_id pre body,
    event_room demo_event = Ok room_id /\
    [SparkGet (JStr "msg-1");
     SparkPost demo_room
       (Plain "get [mr clients|guest clients|top talkers|inventory|networks|ssids]")]
    = pre ++ [SparkPost room_id body].
Proof.
  apply (completion_ends_with_post demo_cfg help_world demo_event []).
  reflexivity.
Defined.

(** ** Failures of the entry point *)

(** X19.  An event that has [data.id] and no [data.roomId] fails with
    [KeyError 'roomId'] before any remote call. *)
Theorem missing_room_no_call (cfg : Config) (W : World) (event msg_id : json)
    (e : exn) (tr : trace) :
  data_id event = Ok msg_id ->
  event_room event = Raise e ->
  lambda_handler cfg W event tr = (Raise e, tr) /\ e = KeyError "roomId".
Proof.
  unfold data_id, event_room, lambda_handler, bind, lift.
  destruct (subscript event "data") as [data|e'] eqn:Hdata; [|discriminate].
  intros Hid Hroom. rewrite Hid, Hroom. split; [done|].
  unfold subscript in Hid, Hroom. destruct data; try discriminate.
  destruct (assoc "roomId" fields); [discriminate|]. by injection Hroom as <-.
Qed.

Lemma missing_room_witness :
  lambda_handler demo_cfg help_world (JObj [("data", JObj [("id", JStr "msg-1")])]) []
  = (Raise (KeyError "roomId"), []).
Proof.
  refine (proj1 (missing_room_no_call demo_cfg help_world
           (JObj [("data", JObj [("id", JStr "msg-1")])]) (JStr "msg-1")
           (KeyError "roomId") [] _ _)); reflexivity.
Defined.

(** X20.  When the message cannot be fetched or has no [text], the invocation fails
    after the one request for the message: nothing is posted. *)
Theorem message_failure_posts_nothing (cfg : Config) (W : World)
    (event msg_id room_id : json) (e : exn) (tr : trace) :
  data_id event = Ok msg_id ->
  event_room event = Ok room_id ->
  message_text W msg_id = Raise e ->
  lambda_handler cfg W event tr = (Raise e, tr ++ [SparkGet msg_id]).
Proof.
  unfold data_id, event_room, message_text, lambda_handler, bind, lift, call.
  destruct (subscript event "data") as [data|e']; [|discriminate].
  intros -> -> Htext.
  destruct (spark_get W msg_id) as [t|e']; [by rewrite Htext|].
  by injection Htext as ->.
Qed.

Lemma message_failure_witness :
  lambda_handler demo_cfg ssid_world demo_event []
  = (Raise (KeyError "text"), [] ++ [SparkGet (JStr "msg-1")]).
Proof.
  apply (message_failure_posts_nothing demo_cfg ssid_world demo_event
           (JStr "msg-1") demo_room (KeyError "text") []); reflexivity.
Defined.

(** ** Normalized names and totals *)


Lemma normalize_ascii (W : World) (d : string) :
  PyStr.is_ascii d = true -> normalize W d = PyStr.map_chars normalize_char d.
Proof.
  intros Hd. rewrite normalize_spec. unfold normalized_name, lower_case.
  rewrite Hd. by rewrite map_chars_compose.
Qed.

Lemma underscore_plain (c : ascii) : underscore c <> " "%char /\ underscore c <> "."%char.
Proof. destruct c as [[] [] [] [] [] [] [] []]; split; discriminate. Qed.

Lemma normalize_char_idem (c : ascii) : normalize_char (normalize_char c) = normalize_char c.
Proof. by destruct c as [[] [] [] [] [] [] [] []]. Qed.

Lemma normalize_char_lower (c : ascii) : PyStr.is_upper (normalize_char c) = false.
Proof. by destruct c as [[] [] [] [] [] [] [] []]. Qed.

Lemma normalize_char_ascii (c : ascii) :
  PyStr.is_ascii_char (normalize_char c) = PyStr.is_ascii_char c.
Proof. by destruct c as [[] [] [] [] [] [] [] []]. Qed.

Lemma is_ascii_normalize_chars (d : string) :
  PyStr.is_ascii (PyStr.map_chars normalize_char d) = PyStr.is_ascii d.
Proof.
  induction d as [|c d IH]; cbn [PyStr.map_chars PyStr.is_ascii]; [done|].
  by rewrite normalize_char_ascii, IH.
Qed.

(** X21.  Whatever the description, its key holds no space and no period.
    For an ASCII description the key holds no capital letter either,
    normalizing the key again changes nothing, and an ASCII description
    that differs from it only in the case of letters has the same key. *)
Theorem normalize_properties (W : World) (d : string) :
  Forall (fun c => c <> " "%char /\ c <> "."%char)
         (list_ascii_of_string (normalize W d)) /\
  (PyStr.is_ascii d = true ->
   Forall (fun c => PyStr.is_upper c = false) (list_ascii_of_string (normalize W d)) /\
   normalize W (normalize W d) = normalize W d /\
   forall d' : string,
     PyStr.is_ascii d' = true ->
     PyStr.map_chars (translate upper_letters lower_letters) d'
     = PyStr.map_chars (translate upper_letters lower_letters) d ->
     normalize W d' = normalize W d).
Proof.
  split; [|intros Hd; split; [|split]].
  - rewrite normalize_spec. unfold normalized_name.
    induction (lower_case W d) as [|c s IH]; cbn [PyStr.map_chars list_ascii_of_string].
    + constructor.
    + constructor; [apply underscore_plain|done].
  - rewrite (normalize_ascii W d Hd). clear Hd.
    induction d as [|c d IH]; cbn [PyStr.map_chars list_ascii_of_string].
    + constructor.
    + constructor; [apply normalize_char_lower|done].
  - rewrite (normalize_ascii W d Hd).
    rewrite normalize_ascii by (by rewrite is_ascii_normalize_chars).
    rewrite map_chars_compose. apply map_chars_ext, normalize_char_idem.
  - intros d' Hd' Heq. rewrite !normalize_spec. unfold normalized_name, lower_case.
    by rewrite Hd, Hd', Heq.
Qed.

Lemma normalize_properties_witness :
  normalize help_world "ANN'S Phone.local" = normalize help_world "Ann's phone.Local".
Proof.
  pose proof (normalize_properties help_world "Ann's phone.Local") as [_ H].
  assert (Ha : PyStr.is_ascii "Ann's phone.Local" = true) by (vm_compute; reflexivity).
  destruct (H Ha) as (_ & _ & Hcase).
  apply Hcase; vm_compute; reflexivity.
Defined.

Lemma Zsum_perm (l1 l2 : list Z) : Permutation l1 l2 -> Zsum l1 = Zsum l2.
Proof.
  induction 1 as [|x l1 l2 _ IH|x y l|l1 l2 l3 _ IH1 _ IH2]; cbn [Zsum] in *;
    lia.
Qed.

Lemma usage_sum_add (W : World) (m : gmap string Z) (r : ClientRecord) :
  usage_sum (add_usage W m r) = (usage_sum m + traf_sum r)%Z.
Proof.
  unfold add_usage, usage_sum. fold (traf_sum r).
  generalize (normalize W (description r)). intros d.
  destruct (m !! d) as [total|] eqn:Hm.
  - rewrite <- (insert_delete_eq m).
    rewrite (Zsum_perm _ _ (Permutation_map snd
               (map_to_list_insert (delete d m) d
                  (total + traf_sum r)%Z (lookup_delete_eq m d)))).
    rewrite <- (Zsum_perm _ _ (Permutation_map snd
               (map_to_list_delete m d total Hm))).
    cbn [map snd Zsum]. lia.
  - rewrite (Zsum_perm _ _ (Permutation_map snd
               (map_to_list_insert m d (traf_sum r) Hm))).
    cbn [map snd Zsum]. lia.
Qed.

Lemma usage_sum_aggregate_rows (W : World) (l : list ClientRecord) (m : gmap string Z) :
  usage_sum (aggregate_rows W l m) = (usage_sum m + Zsum (map traf_sum l))%Z.
Proof.
  unfold aggregate_rows. revert m.
  induction l as [|r l IH]; intros m; cbn [fold_left map Zsum].
  - lia.
  - rewrite IH, usage_sum_add. lia.
Qed.

(** X22.  The totals of the aggregated entries add up to the traffic of all the
    records - no record is dropped and none is counted twice - and there
    are no more entries than records. *)
Theorem usage_conserved (W : World) (l : list ClientRecord) :
  usage_sum (aggregate W l) = Zsum (map traf_sum l) /\
  size (aggregate W l) <= length l.
Proof.
  split.
  - unfold aggregate. rewrite usage_sum_aggregate_rows.
    unfold usage_sum. by rewrite map_to_list_empty.
  - unfold aggregate, aggregate_rows.
    assert (H : forall m : gmap string Z,
               size (fold_left (add_usage W) l m) <= size m + length l).
    { induction l as [|r l IH]; intros m; cbn [fold_left length]; [lia|].
      etrans; [apply IH|].
      assert (size (add_usage W m r) <= S (size m)); [|lia].
      unfold add_usage. destruct (m !! normalize W (description r)) eqn:Hm.
      - rewrite map_size_insert_Some by eauto. lia.
      - rewrite map_size_insert_None by done. lia. }
    specialize (H ∅). by rewrite map_size_empty in H.
Qed.

(** X23.  The table the top-talkers handler prints does not depend on the
    order in which the dictionary is visited. *)
Theorem top_talkers_table_order_free (client_traffic : gmap string Z)
    (entries : list (string * Z)) :
  Permutation entries (map_to_list client_traffic) ->
  let table := new_table ["Client"; "Usage - kbytes past hour"] in
  get_string_sortby "Usage - kbytes past hour" (fold_left usage_step entries table)
  = get_string_sortby "Usage - kbytes past hour" (usage_rows client_traffic table).
Proof. intros Hp. unfold usage_rows. by apply usage_table_any_order. Qed.

Lemma top_talkers_table_order_free_witness :
  let table := new_table ["Client"; "Usage - kbytes past hour"] in
  get_string_sortby "Usage - kbytes past hour"
    (fold_left usage_step [("laptop", 40%Z); ("phone", 300%Z)] table)
  = get_string_sortby "Usage - kbytes past hour"
      (usage_rows (<["phone" := 300%Z]> {["laptop" := 40%Z]}) table).
Proof.
  apply (top_talkers_table_order_free
           (<["phone" := 300%Z]> {["laptop" := 40%Z]})
           [("laptop", 40%Z); ("phone", 300%Z)]).
  rewrite map_to_list_insert by done. rewrite map_to_list_singleton.
  apply perm_swap.
Defined.
